(** * GitHub issue migrator (main.go): model and properties

    The migrator copies issues from an exported snapshot into a target
    repository in four phases: collect labels and milestones, provision
    them, create the issues with one consolidated comment each, and
    rewrite [#N] references to the newly assigned numbers.

    Go values are modelled as follows: [int] is a [Z] (the program does
    no arithmetic on issue numbers, only [strconv.Atoi] can saturate),
    [string] is [string], Go maps are [gmap], slices are lists, a nil-able
    pointer is an [option]. Calls to the GitHub client and to the logger
    are recorded in an event trace; the answers of the remote side come
    from an oracle that sees the whole history of the run. The functions
    of the Go standard library that the rewriter relies on ([strconv.Atoi],
    [strings.TrimPrefix], [fmt.Sprintf] with [%d], and the regexp engine
    on the one pattern of the program) are modelled after the library;
    [time.Parse] is a parameter. *)

From Stdlib Require Import ZArith Ascii String List Lia.
From stdpp Require Import base option list gmap strings pretty.
From Equations Require Import Equations.
From Equations.Prop Require Import Logic.

Local Open Scope Z_scope.

(** ** Go standard library: strings, strconv, fmt, regexp *)

Module GoLib.

(** The newline and the double quote of the format strings. *)
Definition nl : string := String "010"%char EmptyString.
Definition dquote : string := String "034"%char EmptyString.

(** [strings.HasPrefix] and [strings.TrimPrefix]. *)
Fixpoint HasPrefix (s prefix : string) {struct prefix} : bool :=
  match prefix, s with
  | EmptyString, _ => true
  | String p prefix', String c s' =>
      if Ascii.eqb c p then HasPrefix s' prefix' else false
  | String _ _, EmptyString => false
  end.

Fixpoint drop_bytes (n : nat) (s : string) : string :=
  match n, s with
  | O, _ => s
  | S n', String _ s' => drop_bytes n' s'
  | S _, EmptyString => EmptyString
  end.

Definition TrimPrefix (s prefix : string) : string :=
  if HasPrefix s prefix then drop_bytes (String.length prefix) s else s.

(** The byte classes used by the pattern [#(\d+)]: RE2's [\d] is the
    ASCII class [0-9]. *)
Definition is_digit (c : ascii) : bool :=
  (48 <=? nat_of_ascii c)%nat && (nat_of_ascii c <=? 57)%nat.

Definition is_hash (c : ascii) : bool := Ascii.eqb c "#"%char.

Definition digit_val (c : ascii) : Z := Z.of_nat (nat_of_ascii c) - 48.

(** *** strconv.Atoi on a 64-bit platform *)

Inductive NumError := ErrSyntax | ErrRange.

Definition intSize : Z := 64.
Definition maxUint64 : Z := 2 ^ 64 - 1.
Definition maxInt : Z := 2 ^ (intSize - 1) - 1.
Definition minInt : Z := - 2 ^ (intSize - 1).

(** The digit loop of [strconv.ParseUint] for base 10 and bit size 64:
    [n] is a [uint64], the addition wraps. *)
Fixpoint parseUintLoop (n : Z) (s : string) : Z * option NumError :=
  match s with
  | EmptyString => (n, None)
  | String c s' =>
      if is_digit c then
        let d := digit_val c in
        if maxUint64 / 10 + 1 <=? n then (maxUint64, Some ErrRange)
        else
          let n10 := n * 10 in
          let n1 := (n10 + d) mod 2 ^ 64 in
          if (n1 <? n10) || (maxUint64 <? n1) then (maxUint64, Some ErrRange)
          else parseUintLoop n1 s'
      else (0, Some ErrSyntax)
  end.

Definition ParseUint (s : string) : Z * option NumError :=
  match s with
  | EmptyString => (0, Some ErrSyntax)
  | _ => parseUintLoop 0 s
  end.

Definition ParseInt (s : string) : Z * option NumError :=
  match s with
  | EmptyString => (0, Some ErrSyntax)
  | String c0 s' =>
      let '(neg, digits) :=
        if Ascii.eqb c0 "+"%char then (false, s')
        else if Ascii.eqb c0 "-"%char then (true, s')
        else (false, s) in
      match ParseUint digits with
      | (_, Some ErrSyntax) => (0, Some ErrSyntax)
      | (un, _) =>
          let cutoff := 2 ^ (intSize - 1) in
          if negb neg && (cutoff <=? un) then (cutoff - 1, Some ErrRange)
          else if neg && (cutoff <? un) then (- cutoff, Some ErrRange)
          else (if neg then - un else un, None)
      end
  end.

(** The fast path of [Atoi]: fewer than 19 bytes cannot overflow. *)
Fixpoint atoiFast (n : Z) (s : string) : option Z :=
  match s with
  | EmptyString => Some n
  | String c s' =>
      if is_digit c then atoiFast (n * 10 + digit_val c) s' else None
  end.

Definition Atoi (s : string) : Z * option NumError :=
  let sLen := String.length s in
  if (0 <? sLen)%nat && (sLen <? 19)%nat then
    match s with
    | EmptyString => (0, Some ErrSyntax)
    | String c0 s' =>
        let signed := Ascii.eqb c0 "-"%char || Ascii.eqb c0 "+"%char in
        let digits := if signed then s' else s in
        match digits with
        | EmptyString => (0, Some ErrSyntax)
        | _ =>
            match atoiFast 0 digits with
            | None => (0, Some ErrSyntax)
            | Some n => (if Ascii.eqb c0 "-"%char then - n else n, None)
            end
        end
    end
  else ParseInt s.

(** [fmt.Sprintf("%d", n)]: decimal digits, a leading minus sign for a
    negative number. *)
Definition fmt_d (n : Z) : string := pretty n.

(** *** regexp: the compiled pattern [#(\d+)] *)

(** The longest run of digits at the front of [s], and what follows. *)
Fixpoint span_digits (s : string) : string * string :=
  match s with
  | String c s' =>
      if is_digit c then
        let '(ds, rest) := span_digits s' in (String c ds, rest)
      else (EmptyString, s)
  | EmptyString => (EmptyString, EmptyString)
  end.

(** A match found by the regexp engine in a source text: the text
    before it, the matched text and the text after it. *)
Record Match := mkMatch { before : string; matched : string; after : string }.

(** The leftmost match of [#(\d+)] in [s]; the greedy [+] takes the
    whole digit run. *)
Fixpoint findLink (s : string) : option Match :=
  match s with
  | EmptyString => None
  | String c s' =>
      let skip :=
        match findLink s' with
        | Some f => Some (mkMatch (String c (before f)) (matched f) (after f))
        | None => None
        end in
      if is_hash c then
        match span_digits s' with
        | (String d ds, rest) => Some (mkMatch EmptyString (String c (String d ds)) rest)
        | (EmptyString, _) => skip
        end
      else skip
  end.

(** [Regexp.ReplaceAllStringFunc] for this pattern: copy the text up to
    the next match, append the replacement of the match, go on after
    it; copy the tail once no match is left. Matches are never empty, so
    the search always resumes at the end of the previous match. *)
Equations? ReplaceAllStringFunc (repl : string → string) (src : string)
  : string by wf (String.length src) lt :=
  ReplaceAllStringFunc repl src with inspect (findLink src) := {
    | exist _ (Some f) Hfind =>
        before f +:+ repl (matched f) +:+ ReplaceAllStringFunc repl (after f)
    | exist _ None _ => src }.
Proof.
  assert (Hspan : ∀ s, (String.length (span_digits s).2 <= String.length s)%nat).
  { intros s. induction s as [|c s IH]; simpl; [lia|].
    destruct (is_digit c); simpl; [|lia].
    destruct (span_digits s); simpl in *. lia. }
  clear ReplaceAllStringFunc. revert f Hfind.
  induction src as [|c s IH]; intros f; simpl; [done|].
  assert (Hskip : match findLink s with
                  | Some f0 => Some (mkMatch (String c (before f0)) (matched f0) (after f0))
                  | None => None
                  end = Some f → (String.length (after f) < S (String.length s))%nat).
  { destruct (findLink s) as [f0|]; [|done].
    intros [= <-]. specialize (IH _ eq_refl). simpl. lia. }
  destruct (is_hash c); [|done].
  specialize (Hspan s).
  destruct (span_digits s) as [[|d ds] r]; [done|].
  intros [= <-]. simpl in *. lia.
Qed.

End GoLib.

Import GoLib.

(** ** The snapshot model (the JSON structs of main.go) *)

Record User := { User_Login : string }.

Record Comment := { Comment_Body : string; Comment_Author : User }.

Record Label := {
  Label_Name : string;
  Label_Color : string;
  Label_Description : string }.

Record Milestone := {
  Milestone_Title : string;
  Milestone_Description : string;
  Milestone_DueOn : option string }.

Record Issue := {
  Issue_Number : Z;
  Issue_Title : string;
  Issue_Body : string;
  Issue_Labels : list Label;
  Issue_Comments : list Comment;
  Issue_Milestone : option Milestone }.

(** A Go call that returns [(value, error)]: the error carries its
    message, which is all the program uses of it ([%v]). *)
Inductive Result (A : Type) : Type :=
| Ok (a : A)
| Err (msg : string).
Arguments Ok {A} a.
Arguments Err {A} msg.

(** What the program takes from its platform: the [time] package and the
    order in which [range] enumerates a map, which Go leaves unspecified
    (every entry once, in some order). *)
Class Platform := {
  Time : Type;
  time_Parse : string → string → Result Time;
  rangeOrder : ∀ {V : Type}, gmap string V → list (string * V);
  rangeOrder_perm : ∀ (V : Type) (m : gmap string V),
    rangeOrder m ≡ₚ map_to_list m }.

Definition RFC3339 : string := "2006-01-02T15:04:05Z07:00".

Section Model.
Context `{Platform}.

(** *** The go-github types, restricted to the fields main.go touches *)

Record GhLabel := {
  gl_Name : option string;
  gl_Color : option string;
  gl_Description : option string }.

Record GhMilestone := {
  gm_Title : option string;
  gm_Description : option string;
  gm_DueOn : option Time;
  gm_Number : option Z }.

Record MilestoneListOptions := { mlo_State : string }.

Record IssueRequest := {
  ir_Title : option string;
  ir_Body : option string;
  ir_Labels : option (list string);
  ir_Milestone : option Z }.

Record GhIssue := { gi_Number : option Z }.

Record IssueComment := { ic_Body : option string }.

(** The nil-safe getters. *)
Definition gl_GetName (l : GhLabel) : string := default EmptyString (gl_Name l).
Definition gm_GetTitle (m : GhMilestone) : string := default EmptyString (gm_Title m).
Definition gm_GetNumber (m : GhMilestone) : Z := default 0 (gm_Number m).
Definition gi_GetNumber (i : GhIssue) : Z := default 0 (gi_Number i).

(** *** Events: what the run does to the outside *)

(** A logged message (the text handed to the logger) or a call of the
    GitHub client with its arguments and the answer it got. *)
Inductive Event :=
| Log (line : string)
| CallListLabels (owner repo : string) (res : Result (list GhLabel))
| CallCreateLabel (owner repo : string) (req : GhLabel) (err : option string)
| CallListMilestones (owner repo : string) (opts : MilestoneListOptions)
    (res : Result (list GhMilestone))
| CallCreateMilestone (owner repo : string) (req : GhMilestone)
    (res : Result GhMilestone)
| CallCreate (owner repo : string) (req : IssueRequest) (res : Result GhIssue)
| CallCreateComment (owner repo : string) (number : Z) (comment : IssueComment)
    (err : option string)
| CallEdit (owner repo : string) (number : Z) (req : IssueRequest)
    (err : option string).

(** The remote side: each operation answers from the history of the run
    so far and its arguments. *)
Class Client := {
  Issues_ListLabels : list Event → string → string → Result (list GhLabel);
  Issues_CreateLabel : list Event → string → string → GhLabel → option string;
  Issues_ListMilestones :
    list Event → string → string → MilestoneListOptions → Result (list GhMilestone);
  Issues_CreateMilestone :
    list Event → string → string → GhMilestone → Result GhMilestone;
  Issues_Create : list Event → string → string → IssueRequest → Result GhIssue;
  Issues_CreateComment :
    list Event → string → string → Z → IssueComment → option string;
  Issues_Edit : list Event → string → string → Z → IssueRequest → option string }.

Context `{Client}.

(** *** The monad of the run: read the history, emit new events *)

(** A computation is given the events so far and returns its result with
    the events it adds. *)
Definition M (A : Type) : Type := list Event → A * list Event.

Definition ret {A : Type} (a : A) : M A := λ _, (a, []).

Definition bind {A B : Type} (m : M A) (f : A → M B) : M B :=
  λ h, let '(a, t1) := m h in
       let '(b, t2) := f a (h ++ t1) in
       (b, t1 ++ t2).

Notation "x <- m ;; k" := (bind m (λ x, k))
  (at level 100, m at next level, right associativity).
Notation "m ;;; k" := (bind m (λ _, k))
  (at level 100, right associativity).

(** The logger: the event carries the formatted message; the time stamp
    and the final newline that the logger adds are not part of it. *)
Definition log_Printf (msg : string) : M unit := λ _, (tt, [Log msg]).
Definition log_Println (msg : string) : M unit := log_Printf (msg +:+ nl).

(** The calls of [client.Issues]: ask the remote side, record the call. *)
Definition ListLabels (owner repo : string) : M (Result (list GhLabel)) :=
  λ h, let r := Issues_ListLabels h owner repo in (r, [CallListLabels owner repo r]).
Definition CreateLabel (owner repo : string) (req : GhLabel) : M (option string) :=
  λ h, let r := Issues_CreateLabel h owner repo req in
       (r, [CallCreateLabel owner repo req r]).
Definition ListMilestones (owner repo : string) (opts : MilestoneListOptions)
  : M (Result (list GhMilestone)) :=
  λ h, let r := Issues_ListMilestones h owner repo opts in
       (r, [CallListMilestones owner repo opts r]).
Definition CreateMilestone (owner repo : string) (req : GhMilestone)
  : M (Result GhMilestone) :=
  λ h, let r := Issues_CreateMilestone h owner repo req in
       (r, [CallCreateMilestone owner repo req r]).
Definition Create (owner repo : string) (req : IssueRequest) : M (Result GhIssue) :=
  λ h, let r := Issues_Create h owner repo req in (r, [CallCreate owner repo req r]).
Definition CreateComment (owner repo : string) (number : Z) (c : IssueComment)
  : M (option string) :=
  λ h, let r := Issues_CreateComment h owner repo number c in
       (r, [CallCreateComment owner repo number c r]).
Definition Edit (owner repo : string) (number : Z) (req : IssueRequest)
  : M (option string) :=
  λ h, let r := Issues_Edit h owner repo number req in
       (r, [CallEdit owner repo number req r]).

(** [for _, x := range xs { s = body(s, x) }] *)
Fixpoint forEach {A S : Type} (body : S → A → M S) (s : S) (xs : list A) : M S :=
  match xs with
  | [] => ret s
  | x :: xs' => s' <- body s x ;; forEach body s' xs'
  end.

Definition fmt_len {A : Type} (l : list A) : string := fmt_d (Z.of_nat (length l)).

(** *** Phase 1: findLablesAndMilestones *)

(** main.go, 105-120: the inner loop over the labels of an issue, the body
    of the loop over the issues, and the function with its log line. *)
Definition collectLabels (uniqueLabels : gmap string Label) (labels : list Label)
  : gmap string Label :=
  foldl (λ acc label, <[Label_Name label := label]> acc) uniqueLabels labels.

Definition collectIssue (acc : gmap string Label * gmap string Milestone)
  (issue : Issue) : gmap string Label * gmap string Milestone :=
  (collectLabels acc.1 (Issue_Labels issue),
   match Issue_Milestone issue with
   | Some m => <[Milestone_Title m := m]> acc.2
   | None => acc.2
   end).

Definition findLablesAndMilestones (issues : list Issue)
  : M (gmap string Label * gmap string Milestone) :=
  let found := foldl collectIssue (∅, ∅) issues in
  log_Printf ("Found " +:+ fmt_d (Z.of_nat (size found.1)) +:+ " unique labels and "
              +:+ fmt_d (Z.of_nat (size found.2)) +:+ " unique milestones." +:+ nl) ;;;
  ret found.

(** *** Phase 2: createLabels and createMilestones *)

(** The set of the names of the existing labels, a [map[string]bool]. *)
Definition existingNames (existingLabels : list GhLabel) : gmap string bool :=
  foldl (λ acc label, <[gl_GetName label := true]> acc) ∅ existingLabels.

(** The body of the loop over the collected labels (main.go, 132-144). *)
Definition createLabel1 (owner repo : string) (existingLabelNames : gmap string bool)
  (_ : unit) (entry : string * Label) : M unit :=
  let '(name, label) := entry in
  if negb (default false (existingLabelNames !! name)) then
    log_Printf ("Creating label: [" +:+ name +:+ "]") ;;;
    err <- CreateLabel owner repo
             {| gl_Name := Some (Label_Name label);
                gl_Color := Some (Label_Color label);
                gl_Description := Some (Label_Description label) |} ;;
    match err with
    | Some e =>
        log_Printf ("Warning: failed to create label [" +:+ name +:+ "]: " +:+ e +:+ nl)
    | None => ret tt
    end
  else ret tt.

(** main.go, 122-147. The result is the returned [error], [None] for nil. *)
Definition createLabels (owner repo : string) (labels : gmap string Label)
  : M (option string) :=
  r <- ListLabels owner repo ;;
  match r with
  | Err err => ret (Some ("failed to fetch existing labels: " +:+ err))
  | Ok existingLabels =>
      forEach (createLabel1 owner repo (existingNames existingLabels)) tt
              (rangeOrder labels) ;;;
      ret None
  end.

(** The title-to-number map, seeded from the existing milestones. *)
Definition seedMilestones (existingMilestones : list GhMilestone) : gmap string Z :=
  foldl (λ acc m, <[gm_GetTitle m := gm_GetNumber m]> acc) ∅ existingMilestones.

(** The request for a collected milestone: title and description, and
    the due date when it is present and parses. The first component is
    the warning to log when it does not parse. *)
Definition milestoneRequest (title : string) (milestone : Milestone)
  : option string * GhMilestone :=
  let newMilestoneReq :=
    {| gm_Title := Some (Milestone_Title milestone);
       gm_Description := Some (Milestone_Description milestone);
       gm_DueOn := None; gm_Number := None |} in
  match Milestone_DueOn milestone with
  | Some dueOn =>
      match time_Parse RFC3339 dueOn with
      | Err err =>
          (Some ("Warning: could not parse due date for milestone '" +:+ title
                 +:+ "': " +:+ err +:+ ". Creating without due date."),
           newMilestoneReq)
      | Ok parsedTime =>
          (None,
           {| gm_Title := gm_Title newMilestoneReq;
              gm_Description := gm_Description newMilestoneReq;
              gm_DueOn := Some parsedTime;
              gm_Number := gm_Number newMilestoneReq |})
      end
  | None => (None, newMilestoneReq)
  end.

(** The body of the loop over the collected milestones (main.go, 159-186). *)
Definition createMilestone1 (owner repo : string)
  (milestoneTitleToNumber : gmap string Z) (entry : string * Milestone)
  : M (gmap string Z) :=
  let '(title, milestone) := entry in
  match milestoneTitleToNumber !! title with
  | Some _ => ret milestoneTitleToNumber
  | None =>
      log_Printf ("Creating milestone: " +:+ title) ;;;
      let '(warning, newMilestoneReq) := milestoneRequest title milestone in
      match warning with Some w => log_Printf w | None => ret tt end ;;;
      r <- CreateMilestone owner repo newMilestoneReq ;;
      match r with
      | Err err =>
          log_Printf ("Warning: failed to create milestone '" +:+ title +:+ "': "
                      +:+ err +:+ nl) ;;;
          ret milestoneTitleToNumber
      | Ok createdMilestone =>
          ret (<[gm_GetTitle createdMilestone := gm_GetNumber createdMilestone]>
                 milestoneTitleToNumber)
      end
  end.

(** main.go, 149-189. *)
Definition createMilestones (owner repo : string) (milestones : gmap string Milestone)
  : M (Result (gmap string Z)) :=
  r <- ListMilestones owner repo {| mlo_State := "all" |} ;;
  match r with
  | Err err => ret (Err ("failed to fetch existing milestones: " +:+ err))
  | Ok existingMilestones =>
      m <- forEach (createMilestone1 owner repo) (seedMilestones existingMilestones)
                   (rangeOrder milestones) ;;
      ret (Ok m)
  end.

(** *** Phase 3: createIssueAndComment *)

(** [strings.Builder]: [WriteString] appends, [Len] is the byte count. *)
Definition WriteString (b s : string) : string := b +:+ s.

Definition commentsHeader : string :=
  "### Comments from original issue:" +:+ nl +:+ nl +:+ "---" +:+ nl +:+ nl.
Definition commentsSeparator : string := nl +:+ nl +:+ "---" +:+ nl +:+ nl.
Definition commentHeader (comment : Comment) : string :=
  "**Comment from @" +:+ User_Login (Comment_Author comment) +:+ ":**" +:+ nl +:+ nl.

Definition combineComments (comments : list Comment) : string :=
  foldl (λ combinedComments comment,
           WriteString
             (WriteString (WriteString combinedComments (commentHeader comment))
                          (Comment_Body comment))
             commentsSeparator)
        (WriteString EmptyString commentsHeader) comments.

(** [labelNames = append(labelNames, label.Name)] over the labels. *)
Definition labelNamesOf (labels : list Label) : list string :=
  foldl (λ labelNames label, labelNames ++ [Label_Name label]) [] labels.

(** The creation request for a source issue (main.go, 194-209). *)
Definition newIssueRequestOf (milestoneTitleToNum : gmap string Z) (issue : Issue)
  : IssueRequest :=
  {| ir_Title := Some (Issue_Title issue);
     ir_Body := Some (Issue_Body issue);
     ir_Labels := Some (labelNamesOf (Issue_Labels issue));
     ir_Milestone :=
       match Issue_Milestone issue with
       | Some milestone =>
           match milestoneTitleToNum !! Milestone_Title milestone with
           | Some newMilestoneNum => Some newMilestoneNum
           | None => None
           end
       | None => None
       end |}.

(** The consolidated comment of a created issue (main.go, 221-243). *)
Definition postComments (owner repo : string) (newlyCreatedNumber : Z)
  (comments : list Comment) : M unit :=
  if (0 <? length comments)%nat then
    log_Printf ("Consolidating " +:+ fmt_len comments +:+ " comments for new issue #"
                +:+ fmt_d newlyCreatedNumber) ;;;
    let combinedComments := combineComments comments in
    if (0 <? String.length combinedComments)%nat then
      err <- CreateComment owner repo newlyCreatedNumber
               {| ic_Body := Some combinedComments |} ;;
      match err with
      | Some e =>
          log_Printf ("Failed to create consolidated comment for issue #"
                      +:+ fmt_d newlyCreatedNumber +:+ ": " +:+ e +:+ nl)
      | None => log_Printf ("Successfully posted consolidated comments." +:+ nl)
      end
    else ret tt
  else ret tt.

(** The body of the loop over the source issues (main.go, 193-244); on a
    failed creation the [continue] leaves the mapping as it is. *)
Definition createIssue1 (owner repo : string) (milestoneTitleToNum : gmap string Z)
  (oldToNewIssueNumbers : gmap Z Z) (issue : Issue) : M (gmap Z Z) :=
  let newIssueRequest := newIssueRequestOf milestoneTitleToNum issue in
  log_Printf ("Creating issue for: " +:+ dquote +:+ Issue_Title issue +:+ dquote
              +:+ "...") ;;;
  r <- Create owner repo newIssueRequest ;;
  match r with
  | Err err =>
      log_Printf ("Failed to create issue " +:+ dquote +:+ Issue_Title issue
                  +:+ dquote +:+ ": " +:+ err) ;;;
      ret oldToNewIssueNumbers
  | Ok createdIssue =>
      let newlyCreatedNumber := gi_GetNumber createdIssue in
      postComments owner repo newlyCreatedNumber (Issue_Comments issue) ;;;
      ret (<[Issue_Number issue := newlyCreatedNumber]> oldToNewIssueNumbers)
  end.

(** main.go, 191-247. *)
Definition createIssueAndComment (owner repo : string) (issues : list Issue)
  (milestoneTitleToNum : gmap string Z) : M (gmap Z Z) :=
  forEach (createIssue1 owner repo milestoneTitleToNum) ∅ issues.

(** *** Phase 4: updateIssueLinks *)

(** The replacement closure: the new reference for a match. *)
Definition replaceLink (oldToNewIssueNumbers : gmap Z Z) (match_ : string) : string :=
  let oldNumStr := TrimPrefix match_ "#" in
  let '(oldNum, _) := Atoi oldNumStr in
  match oldToNewIssueNumbers !! oldNum with
  | Some newNum => "#" +:+ fmt_d newNum
  | None => match_
  end.

(** [issueLinkRegex.ReplaceAllStringFunc(sourceIssue.Body, ...)]. *)
Definition updatedBodyOf (oldToNewIssueNumbers : gmap Z Z) (body : string) : string :=
  ReplaceAllStringFunc (replaceLink oldToNewIssueNumbers) body.

(** The body of the loop of phase 4 (main.go, 252-279). *)
Definition updateIssue1 (owner repo : string) (oldToNewIssueNumbers : gmap Z Z)
  (_ : unit) (sourceIssue : Issue) : M unit :=
  match oldToNewIssueNumbers !! Issue_Number sourceIssue with
  | None =>
      log_Printf ("Skipping body update for old issue #"
                  +:+ fmt_d (Issue_Number sourceIssue) +:+ " as it was not created.")
  | Some newlyCreatedNumber =>
      let updatedBody := updatedBodyOf oldToNewIssueNumbers (Issue_Body sourceIssue) in
      if negb (String.eqb updatedBody (Issue_Body sourceIssue)) then
        log_Printf ("Updating body for new issue #" +:+ fmt_d newlyCreatedNumber
                    +:+ " (from old #" +:+ fmt_d (Issue_Number sourceIssue) +:+ ")...") ;;;
        err <- Edit owner repo newlyCreatedNumber
                 {| ir_Title := None; ir_Body := Some updatedBody;
                    ir_Labels := None; ir_Milestone := None |} ;;
        match err with
        | Some e =>
            log_Printf ("Failed to update body for new issue #"
                        +:+ fmt_d newlyCreatedNumber +:+ ": " +:+ e +:+ nl)
        | None => log_Printf ("Success!" +:+ nl)
        end
      else ret tt
  end.

(** main.go, 249-280. *)
Definition updateIssueLinks (owner repo : string) (issues : list Issue)
  (oldToNewIssueNumbers : gmap Z Z) : M unit :=
  forEach (updateIssue1 owner repo oldToNewIssueNumbers) tt issues.

(** *** main, from the parsed snapshot on

    Flag parsing, the token and reading the file come before; [main]
    here starts with the issues that [json.Unmarshal] produced.
    [log.Fatalf] logs and exits with status 1. *)

Inductive Exit := Returned | Exited (code : Z).

Definition log_Fatalf (msg : string) : M Exit := log_Printf msg ;;; ret (Exited 1).

Definition main (owner repo : string) (sourceIssues : list Issue) : M Exit :=
  log_Printf ("Successfully parsed " +:+ fmt_len sourceIssues
              +:+ " issues from the file." +:+ nl) ;;;
  log_Println "Phase 1: Collecting unique labels and milestones" ;;;
  found <- findLablesAndMilestones sourceIssues ;;
  log_Println "Phase 2: Creating labels and milestones in target repository" ;;;
  err <- createLabels owner repo found.1 ;;
  match err with
  | Some e => log_Fatalf ("failed to create labels: " +:+ e)
  | None =>
      r <- createMilestones owner repo found.2 ;;
      match r with
      | Err e => log_Fatalf ("failed to create milestones: " +:+ e)
      | Ok milestoneTitleToNumber =>
          log_Println "Phase 3: Creating issues and comments" ;;;
          oldToNewIssueNumbers <-
            createIssueAndComment owner repo sourceIssues milestoneTitleToNumber ;;
          log_Println "Phase 4: Updating issue bodies with new links" ;;;
          updateIssueLinks owner repo sourceIssues oldToNewIssueNumbers ;;;
          log_Println (nl +:+ " All issues created and linked successfully! ---") ;;;
          ret Returned
      end
  end.

End Model.

(** ** Vocabulary of the properties *)

(** *** References in a body text *)

Fixpoint all_digits (s : string) : bool :=
  match s with
  | EmptyString => true
  | String c s' => is_digit c && all_digits s'
  end.

Definition starts_with_digit (s : string) : bool :=
  match s with
  | String c _ => is_digit c
  | EmptyString => false
  end.

(** The text [x] matches the pattern: a hash sign and one or more digits. *)
Definition is_link (x : string) : Prop :=
  ∃ ds, x = "#" +:+ ds ∧ ds ≠ EmptyString ∧ all_digits ds = true.

(** No substring of [t] matches the pattern. *)
Definition no_link (t : string) : Prop :=
  ∀ pre x post, t = pre +:+ x +:+ post → ¬ is_link x.

(** The same as a test: some hash sign of [s] has a digit after it. *)
Fixpoint has_link (s : string) : bool :=
  match s with
  | EmptyString => false
  | String c s' => (is_hash c && starts_with_digit s') || has_link s'
  end.

(** The number a run of digits denotes. *)
Fixpoint decimal (acc : Z) (ds : string) : Z :=
  match ds with
  | EmptyString => acc
  | String c ds' => decimal (acc * 10 + digit_val c) ds'
  end.

Definition digitsValue (ds : string) : Z := decimal 0 ds.

(** The text [s] is the decimal rendering of the number [n], which is not
    negative: digits only, one at least, denoting [n], and no leading
    zero but for the text [0] itself. *)
Definition decimalOf (n : Z) (s : string) : Prop :=
  s ≠ EmptyString ∧ all_digits s = true ∧ digitsValue s = n ∧
  (s = "0" ∨ HasPrefix s "0" = false).

(** A body text is cut into a leading text and a list of references,
    each a run of digits (after its hash sign) with the text that follows
    it up to the next reference. *)
Definition link (ds : string) : string := "#" +:+ ds.

Fixpoint assemble (render : string → string) (refs : list (string * string)) : string :=
  match refs with
  | [] => EmptyString
  | (ds, text) :: refs' => render ds +:+ text +:+ assemble render refs'
  end.

(** The digits are a whole run: one digit at least, and no digit follows;
    the text after them holds no further reference. *)
Definition wf_ref (r : string * string) : Prop :=
  r.1 ≠ EmptyString ∧ all_digits r.1 = true ∧
  starts_with_digit r.2 = false ∧ no_link r.2.

(** What the rewriter puts in place of a reference. *)
Definition newLink (oldToNew : gmap Z Z) (number : Z) (ds : string) : string :=
  match oldToNew !! number with
  | Some newNum => "#" +:+ fmt_d newNum
  | None => "#" +:+ ds
  end.

(** The texts of a list, one after the other. *)
Fixpoint concat_str (l : list string) : string :=
  match l with
  | [] => EmptyString
  | s :: l' => s +:+ concat_str l'
  end.

(** The last entry of a list that satisfies [P], if any. *)
Definition last_with {A : Type} (P : A → Prop) `{∀ x, Decision (P x)} (l : list A)
  : option A := last (filter P l).

(** *** Observations on a trace *)

Section Observations.
Context `{Platform}.

Definition createCalls (t : list Event) : list (IssueRequest * Result GhIssue) :=
  omap (λ e, match e with CallCreate _ _ req res => Some (req, res) | _ => None end) t.

Definition commentCalls (t : list Event) : list (Z * IssueComment) :=
  omap (λ e, match e with
             | CallCreateComment _ _ number c _ => Some (number, c)
             | _ => None
             end) t.

Definition editCalls (t : list Event) : list (Z * IssueRequest) :=
  omap (λ e, match e with CallEdit _ _ number req _ => Some (number, req) | _ => None end) t.

Definition labelCalls (t : list Event) : list (GhLabel * option string) :=
  omap (λ e, match e with CallCreateLabel _ _ req err => Some (req, err) | _ => None end) t.

Definition milestoneCalls (t : list Event) : list (GhMilestone * Result GhMilestone) :=
  omap (λ e, match e with
             | CallCreateMilestone _ _ req res => Some (req, res)
             | _ => None
             end) t.

(** The call returned without an error. *)
Definition is_ok {A : Type} (r : Result A) : bool :=
  match r with Ok _ => true | Err _ => false end.

(** The milestones a run created, taken from the answers in its trace. *)
Definition createdMilestones (t : list Event) : list GhMilestone :=
  omap (λ c, match c.2 with Ok created => Some created | Err _ => None end)
       (milestoneCalls t).

(** Every created milestone came back under the title that was asked
    for. *)
Definition titlesEchoed (calls : list (GhMilestone * Result GhMilestone)) : Prop :=
  Forall (λ c, match c.2 with
               | Ok created => gm_Title created = gm_Title c.1
               | Err _ => True
               end) calls.

(** A collected map is keyed by the title of its entries. *)
Definition keyedByTitle (milestones : gmap string Milestone) : Prop :=
  map_Forall (λ title m, Milestone_Title m = title) milestones.

(** The consolidated comment for an issue, as the properties describe
    it: the header, then each comment rendered in order. *)
Definition renderComment (c : Comment) : string :=
  "**Comment from @" +:+ User_Login (Comment_Author c) +:+ ":**" +:+ nl +:+ nl
  +:+ Comment_Body c +:+ nl +:+ nl +:+ "---" +:+ nl +:+ nl.

Definition consolidated (comments : list Comment) : string :=
  "### Comments from original issue:" +:+ nl +:+ nl +:+ "---" +:+ nl +:+ nl
  +:+ concat_str (renderComment <$> comments).

Context `{!Client}.

(** The comment that an issue with comments is to get. *)
Definition expectedComment (number : Z) (comments : list Comment)
  : list (Z * IssueComment) :=
  match comments with
  | [] => []
  | _ :: _ => [(number, {| ic_Body := Some (consolidated comments) |})]
  end.

(** One iteration of the loop over the issues: the line it logs first,
    the answer to its creation request, and the mapping afterwards. *)
Definition createLog (issue : Issue) : Event :=
  Log ("Creating issue for: " +:+ dquote +:+ Issue_Title issue +:+ dquote +:+ "...").

Definition createAnswer (owner repo : string) (milestoneTitleToNum : gmap string Z)
  (issue : Issue) (h : list Event) : Result GhIssue :=
  Issues_Create (h ++ [createLog issue]) owner repo
    (newIssueRequestOf milestoneTitleToNum issue).

Definition recordCreated (oldToNew : gmap Z Z) (issue : Issue) (r : Result GhIssue)
  : gmap Z Z :=
  match r with
  | Ok created => <[Issue_Number issue := gi_GetNumber created]> oldToNew
  | Err _ => oldToNew
  end.

(** The outcomes of the creation requests of a run, in order. *)
Definition createOutcomes (t : list Event) : list (Result GhIssue) :=
  (createCalls t).*2.

(** The edit that phase 4 is to submit for a source issue, if any. *)
Definition expectedEdit (oldToNew : gmap Z Z) (issue : Issue)
  : list (Z * IssueRequest) :=
  match oldToNew !! Issue_Number issue with
  | Some newNumber =>
      if decide (updatedBodyOf oldToNew (Issue_Body issue) = Issue_Body issue)
      then []
      else [(newNumber,
             {| ir_Title := None;
                ir_Body := Some (updatedBodyOf oldToNew (Issue_Body issue));
                ir_Labels := None; ir_Milestone := None |})]
  | None => []
  end.

(** Label provisioning: the request for a collected label, the test
    that the target lacks it, and the warning for a refused request. *)
Definition labelRequest (label : Label) : GhLabel :=
  {| gl_Name := Some (Label_Name label);
     gl_Color := Some (Label_Color label);
     gl_Description := Some (Label_Description label) |}.

Definition labelMissing (existingLabels : list GhLabel) (entry : string * Label)
  : Prop :=
  default false (existingNames existingLabels !! entry.1) = false.

#[global] Instance labelMissing_dec (existingLabels : list GhLabel)
  (entry : string * Label) : Decision (labelMissing existingLabels entry).
Proof. unfold labelMissing. apply _. Defined.

Definition labelWarning (name e : string) : Event :=
  Log ("Warning: failed to create label [" +:+ name +:+ "]: " +:+ e +:+ nl).

(** What [main] logs before it turns to the target repository. *)
Definition mainPreamble (sourceIssues : list Issue) : list Event :=
  let found := foldl collectIssue (∅, ∅) sourceIssues in
  [Log ("Successfully parsed " +:+ fmt_len sourceIssues
        +:+ " issues from the file." +:+ nl);
   Log ("Phase 1: Collecting unique labels and milestones" +:+ nl);
   Log ("Found " +:+ fmt_d (Z.of_nat (size found.1)) +:+ " unique labels and "
        +:+ fmt_d (Z.of_nat (size found.2)) +:+ " unique milestones." +:+ nl);
   Log ("Phase 2: Creating labels and milestones in target repository" +:+ nl)].

(** Milestone provisioning: what a created milestone adds to the map,
    what the answer to a creation request leaves under its title, and the
    lines logged before and after the request. *)
Definition recordMilestone (m : gmap string Z) (created : GhMilestone)
  : gmap string Z :=
  <[gm_GetTitle created := gm_GetNumber created]> m.

Definition milestoneOutcome (res : Result GhMilestone) : option Z :=
  match res with
  | Ok created => Some (gm_GetNumber created)
  | Err _ => None
  end.

Definition milestoneLogs (title : string) (milestone : Milestone) : list Event :=
  Log ("Creating milestone: " +:+ title)
  :: match (milestoneRequest title milestone).1 with
     | Some w => [Log w]
     | None => []
     end.

Definition milestoneFailure (title : string) (res : Result GhMilestone)
  : list Event :=
  match res with
  | Ok _ => []
  | Err e =>
      [Log ("Warning: failed to create milestone '" +:+ title +:+ "': " +:+ e +:+ nl)]
  end.

(** The comment calls that one creation attempt brings. *)
Definition commentFor (attempt : Issue * Result GhIssue) : list (Z * IssueComment) :=
  match attempt.2 with
  | Ok created => expectedComment (gi_GetNumber created) (Issue_Comments attempt.1)
  | Err _ => []
  end.

End Observations.

(** ** A concrete platform and client, for running the model *)

Module Demo.

(** The stand-in for [time.Parse]: a text of twenty bytes is taken as a
    time stamp, anything else is refused. *)
Definition parse (layout value : string) : Result string :=
  if (String.length value =? 20)%nat then Ok value
  else Err ("parsing time " +:+ dquote +:+ value +:+ dquote +:+ ": cannot parse").

Definition platform : Platform :=
  {| Time := string;
     time_Parse := parse;
     rangeOrder := λ V m, map_to_list m;
     rangeOrder_perm := λ V m, Permutation_refl (map_to_list m) |}.

(** A scripted target repository: the labels and milestones it already
    has (or a failure to list the labels), and the names and titles for
    which every creation request is refused. New issues are numbered from
    10 on and new milestones from 100 on, by the number of earlier
    successful creations in the history. *)
Record Scenario := {
  sc_labels : Result (list string);
  sc_milestones : list (string * Z);
  sc_refused : list string }.

Definition refused (sc : Scenario) (name : option string) : bool :=
  existsb (String.eqb (default EmptyString name)) (sc_refused sc).

Definition client (sc : Scenario) : @Client platform :=
  {| Issues_ListLabels := λ _ _ _,
       match sc_labels sc with
       | Ok names =>
           Ok ((λ n, {| gl_Name := Some n; gl_Color := None; gl_Description := None |})
                 <$> names)
       | Err e => Err e
       end;
     Issues_CreateLabel := λ _ _ _ req,
       if refused sc (gl_Name req) then Some "422 Validation Failed" else None;
     Issues_ListMilestones := λ _ _ _ _,
       Ok ((λ m, {| gm_Title := Some m.1; gm_Description := None;
                    gm_DueOn := None; gm_Number := Some m.2 |})
             <$> sc_milestones sc);
     Issues_CreateMilestone := λ h _ _ req,
       if refused sc (gm_Title req) then Err "422 Validation Failed"
       else Ok {| gm_Title := gm_Title req; gm_Description := gm_Description req;
                  gm_DueOn := gm_DueOn req;
                  gm_Number :=
                    Some (100 + Z.of_nat (length (createdMilestones h))) |};
     Issues_Create := λ h _ _ req,
       if refused sc (ir_Title req) then Err "500 Internal Server Error"
       else Ok {| gi_Number :=
                    Some (10 + Z.of_nat (length
                      (filter (λ c, is_ok c.2) (createCalls h)))) |};
     Issues_CreateComment := λ _ _ _ _ _, None;
     Issues_Edit := λ _ _ _ _ _, None |}.

(** The target of the examples: it has the label [bug] and the
    milestone [v1], and refuses to create anything called [bad]. *)
Definition target : Scenario :=
  {| sc_labels := Ok ["bug"]; sc_milestones := [("v1", 1)]; sc_refused := ["bad"] |}.

(** The same target with bad credentials: listing the labels fails. *)
Definition lockedTarget : Scenario :=
  {| sc_labels := Err "401 Bad credentials"; sc_milestones := [("v1", 1)];
     sc_refused := ["bad"] |}.

Definition comment (login body : string) : Comment :=
  {| Comment_Body := body; Comment_Author := {| User_Login := login |} |}.

Definition label (name : string) : Label :=
  {| Label_Name := name; Label_Color := "ededed"; Label_Description := EmptyString |}.

Definition milestone (title : string) (dueOn : option string) : Milestone :=
  {| Milestone_Title := title; Milestone_Description := "planned";
     Milestone_DueOn := dueOn |}.

(** Issue 1 is refused by the target. *)
Definition issueRefused : Issue :=
  {| Issue_Number := 1; Issue_Title := "bad"; Issue_Body := "first";
     Issue_Labels := [label "bug"; label "bad"];
     Issue_Comments := [comment "alice" "me too"];
     Issue_Milestone := Some (milestone "v2" (Some "next week")) |}.

(** A second record that carries the number 1 as well, and is created. *)
Definition issueSameNumber : Issue :=
  {| Issue_Number := 1; Issue_Title := "again"; Issue_Body := "second";
     Issue_Labels := [label "new"];
     Issue_Comments := [comment "alice" "one"; comment "bob" "two";
                        comment "alice" "three"];
     Issue_Milestone := Some (milestone "v1" None) |}.

Definition issueReferring : Issue :=
  {| Issue_Number := 2; Issue_Title := "follow-up"; Issue_Body := "see #1 and #2";
     Issue_Labels := []; Issue_Comments := [];
     Issue_Milestone := Some (milestone "bad" None) |}.

Definition distinctIssues : list Issue := [issueRefused; issueReferring].

Definition duplicatedIssues : list Issue :=
  [issueRefused; issueSameNumber; issueReferring].

Definition collectedMilestones : gmap string Milestone :=
  (foldl collectIssue (∅, ∅) duplicatedIssues).2.

(** Phase 3 on the example target, the milestone [v1] being known. *)
Definition replication (issues : list Issue) : gmap Z Z * list Event :=
  @createIssueAndComment platform (client target) "octo" "repo" issues
    (<["v1" := 1]> ∅) [].

(** Milestone provisioning on the example target, for the milestones
    collected from the example issues: [v1] exists, [v2] has a due date
    that does not parse, [bad] is refused. *)
Definition existingV1 : list (@GhMilestone platform) :=
  [{| gm_Title := Some "v1"; gm_Description := None; gm_DueOn := None;
      gm_Number := Some 1 |}].

Definition provision : Result (gmap string Z) * list Event :=
  @createMilestones platform (client target) "octo" "repo" collectedMilestones [].

Definition requestV2 : @GhMilestone platform :=
  {| gm_Title := Some "v2"; gm_Description := Some "planned"; gm_DueOn := None;
     gm_Number := None |}.

Definition references : list (string * string) :=
  [("12", " and "); ("007", EmptyString)].

Definition referencesTo1And2 : list (string * string) :=
  [("1", " and "); ("2", EmptyString)].

End Demo.

(** ** Further vocabulary: the kinds of events, the creations of a run *)

(** The operations a run can perform on the outside. *)
Inductive Kind :=
| KLog | KListLabels | KCreateLabel | KListMilestones | KCreateMilestone
| KCreate | KCreateComment | KEdit.

#[global] Instance Kind_eq_dec : EqDecision Kind.
Proof. solve_decision. Defined.

Section MoreObservations.
Context `{Platform}.

Definition kindOf (e : Event) : Kind :=
  match e with
  | Log _ => KLog
  | CallListLabels _ _ _ => KListLabels
  | CallCreateLabel _ _ _ _ => KCreateLabel
  | CallListMilestones _ _ _ _ => KListMilestones
  | CallCreateMilestone _ _ _ _ => KCreateMilestone
  | CallCreate _ _ _ _ => KCreate
  | CallCreateComment _ _ _ _ _ => KCreateComment
  | CallEdit _ _ _ _ _ => KEdit
  end.

(** Every event of the trace is of one of the kinds [ks]. *)
Definition only (ks : list Kind) (t : list Event) : Prop :=
  Forall (λ e, kindOf e ∈ ks) t.

(** The errors of the two list calls in a trace. *)
Definition fetchErrors (t : list Event) : list string :=
  omap (λ e, match e with
             | CallListLabels _ _ (Err e) => Some e
             | CallListMilestones _ _ _ (Err e) => Some e
             | _ => None
             end) t.

(** The milestones that the list calls of a trace returned. *)
Definition fetchedMilestones (t : list Event) : list GhMilestone :=
  mjoin (omap (λ e, match e with
                    | CallListMilestones _ _ _ (Ok existing) => Some existing
                    | _ => None
                    end) t).

(** A creation attempt that succeeded for the source number [N]. *)
Definition createdAs (N : Z) (attempt : Issue * Result GhIssue) : Prop :=
  Issue_Number attempt.1 = N ∧ is_ok attempt.2 = true.

#[global] Instance createdAs_dec (N : Z) (attempt : Issue * Result GhIssue) :
  Decision (createdAs N attempt).
Proof. unfold createdAs. apply _. Defined.

(** The number of the issue that a creation returned. *)
Definition answeredNumber (r : Result GhIssue) : option Z :=
  match r with
  | Ok created => Some (gi_GetNumber created)
  | Err _ => None
  end.

(** The mapping that a list of creation attempts leaves. *)
Definition mappingOf (attempts : list (Issue * Result GhIssue)) : gmap Z Z :=
  foldl (λ m ir, recordCreated m ir.1 ir.2) ∅ attempts.

(** A collected label map is keyed by the name of its entries. *)
Definition keyedByName (labels : gmap string Label) : Prop :=
  map_Forall (λ name l, Label_Name l = name) labels.

(** The due date of a creation request for a collected milestone. *)
Definition parsedDueOn (milestone : Milestone) : option Time :=
  match Milestone_DueOn milestone with
  | Some dueOn =>
      match time_Parse RFC3339 dueOn with
      | Ok parsedTime => Some parsedTime
      | Err _ => None
      end
  | None => None
  end.

End MoreObservations.

(** ** The start of main: flags, token, file and JSON *)

(** The values of the three flags after [flag.Parse] and of the
    environment variable; an absent one is the empty string. *)
Record Invocation := {
  flag_file : string;
  flag_owner : string;
  flag_repo : string;
  env_GITHUB_TOKEN : string }.

(** What [main] takes from its host: [os.ReadFile], and [json.Unmarshal]
    into a slice of issues. *)
Class Host := {
  os_ReadFile : string → Result string;
  json_Unmarshal : string → Result (list Issue) }.

Section Entry.
Context `{Platform} `{!Client} `{!Host}.

(** What the process puts out: the usage text of the flag package, or
    an event of the run. *)
Inductive Output :=
| PrintedUsage
| Emitted (e : Event).

(** main.go, 57-103, once [flag.Parse] has returned with the values of
    the flags: the checks of the flags and of the token, reading and
    decoding the file, then the run on the decoded snapshot. [log.Fatal]
    and [log.Fatalf] log and exit with status 1. What [flag.Parse] does
    before is in [main_from_args] below. *)
Definition main_from_flags (inv : Invocation) : Exit * list Output :=
  let jsonPath := flag_file inv in
  let owner := flag_owner inv in
  let repo := flag_repo inv in
  if String.eqb jsonPath EmptyString || String.eqb owner EmptyString
     || String.eqb repo EmptyString then
    (Exited 1,
     [Emitted (Log ("All flags (--file, --owner, --repo) are required." +:+ nl));
      PrintedUsage])
  else
    let githubToken := env_GITHUB_TOKEN inv in
    if String.eqb githubToken EmptyString then
      (Exited 1, [Emitted (Log "GITHUB_TOKEN environment variable not set.")])
    else
      match os_ReadFile jsonPath with
      | Err err => (Exited 1, [Emitted (Log ("Error reading JSON file: " +:+ err))])
      | Ok issue =>
          match json_Unmarshal issue with
          | Err err =>
              (Exited 1, [Emitted (Log ("Error unmarshaling JSON data: " +:+ err))])
          | Ok sourceIssues =>
              let run := main owner repo sourceIssues [] in
              (run.1, Emitted <$> run.2)
          end
      end.

(** The calls of the GitHub client in the output. *)
Definition clientCalls (out : list Output) : list Event :=
  omap (λ o, match o with
             | Emitted e => if decide (kindOf e = KLog) then None else Some e
             | PrintedUsage => None
             end) out.

(** The outcome of [flag.Parse] on the command line, for the default
    flag set with its [flag.ExitOnError] handling: the three flags are
    parsed, an absent one being empty; or help was asked for ([-h],
    [-help]); or the line is malformed (an undefined flag, a flag
    without its value). *)
Inductive CommandLine :=
| Flags (file owner repo : string)
| Help
| Malformed (err : string).

(** What the process prints: the message of the flag package for a
    malformed line, or an output of the program. *)
Inductive Printed :=
| FlagError (err : string)
| Out (o : Output).

(** main.go, 51-103, with [flag.Parse] at line 55: on a malformed line
    the flag package prints its message and the usage text and exits with
    status 2; for help it prints the usage text and exits with status 0;
    otherwise the program goes on with the parsed flags. *)
Definition main_from_args (line : CommandLine) (githubToken : string)
  : Exit * list Printed :=
  match line with
  | Malformed err => (Exited 2, [FlagError err; Out PrintedUsage])
  | Help => (Exited 0, [Out PrintedUsage])
  | Flags file owner repo =>
      let run := main_from_flags {| flag_file := file; flag_owner := owner;
                                    flag_repo := repo;
                                    env_GITHUB_TOKEN := githubToken |} in
      (run.1, Out <$> run.2)
  end.

End Entry.

(** Further example targets and a host, for running the whole program. *)
Module Outage.
Import Demo.

(** The example target while its milestones cannot be listed. *)
Definition milestonesDown : @Client platform :=
  {| Issues_ListLabels := @Issues_ListLabels platform (Demo.client target);
     Issues_CreateLabel := @Issues_CreateLabel platform (Demo.client target);
     Issues_ListMilestones := λ _ _ _ _, Err "503 Service Unavailable";
     Issues_CreateMilestone := @Issues_CreateMilestone platform (Demo.client target);
     Issues_Create := @Issues_Create platform (Demo.client target);
     Issues_CreateComment := @Issues_CreateComment platform (Demo.client target);
     Issues_Edit := @Issues_Edit platform (Demo.client target) |}.

(** A host with one file; the decoder is a table from the text of the
    file to the snapshot it stands for. *)
Definition host : Host :=
  {| os_ReadFile := λ path,
       if String.eqb path "issues.json" then Ok "<the two example issues>"
       else Err ("open " +:+ path +:+ ": no such file or directory");
     json_Unmarshal := λ data,
       if String.eqb data "<the two example issues>" then Ok distinctIssues
       else Err "invalid character '<' looking for beginning of value" |}.

Definition invocation : Invocation :=
  {| flag_file := "issues.json"; flag_owner := "octo"; flag_repo := "repo";
     env_GITHUB_TOKEN := "ghp_example" |}.

(** The labels collected from the example issues. *)
Definition collectedLabels : gmap string Label :=
  (foldl collectIssue (∅, ∅) duplicatedIssues).1.

(** Label provisioning as [main] runs it on the two example issues. *)
Definition labelsRun : option string * list Event :=
  @createLabels platform milestonesDown "octo" "repo"
    (foldl collectIssue (∅, ∅) distinctIssues).1 ([] ++ mainPreamble distinctIssues).

Definition existingBug : list GhLabel :=
  [{| gl_Name := Some "bug"; gl_Color := None; gl_Description := None |}].

End Outage.

(** A target without milestones that files every new milestone under
    the title [A], whatever title is asked for, and refuses a request
    for the title [A] itself. *)
Module Retitling.
Import Demo.

Definition target : @Client platform :=
  {| Issues_ListLabels := @Issues_ListLabels platform (Demo.client Demo.target);
     Issues_CreateLabel := @Issues_CreateLabel platform (Demo.client Demo.target);
     Issues_ListMilestones := λ _ _ _ _, Ok [];
     Issues_CreateMilestone := λ _ _ _ req,
       if String.eqb (gm_GetTitle req) "A" then Err "422 Validation Failed"
       else Ok {| gm_Title := Some "A"; gm_Description := gm_Description req;
                  gm_DueOn := gm_DueOn req; gm_Number := Some 5 |};
     Issues_Create := @Issues_Create platform (Demo.client Demo.target);
     Issues_CreateComment := @Issues_CreateComment platform (Demo.client Demo.target);
     Issues_Edit := @Issues_Edit platform (Demo.client Demo.target) |}.

(** Two collected milestones, each under its own title. *)
Definition milestones : gmap string Milestone :=
  <["B" := milestone "B" None]> (<["A" := milestone "A" None]> ∅).

Definition provision : Result (gmap string Z) * list Event :=
  @createMilestones platform target "octo" "repo" milestones [].

End Retitling.

(** ** Facts about strings and the pattern *)

Module StringFacts.

Lemma app_nil_l (s : string) : EmptyString +:+ s = s.
Proof. reflexivity. Qed.

Lemma app_cons (c : ascii) (s t : string) : String c s +:+ t = String c (s +:+ t).
Proof. reflexivity. Qed.

Lemma app_nil_r (s : string) : s +:+ EmptyString = s.
Proof. induction s as [|c s IH]; [done|]. by rewrite app_cons, IH. Qed.

Lemma app_assoc (s t u : string) : (s +:+ t) +:+ u = s +:+ t +:+ u.
Proof. induction s as [|c s IH]; [done|]. by rewrite !app_cons, IH. Qed.

Lemma link_cons (ds : string) : link ds = String "#" ds.
Proof. reflexivity. Qed.

End StringFacts.
Import StringFacts.

Section Pattern.

Lemma span_digits_length s :
  (String.length (span_digits s).2 <= String.length s)%nat.
Proof.
  induction s as [|c s IH]; simpl; [lia|].
  destruct (is_digit c); simpl; [|lia].
  destruct (span_digits s); simpl in *. lia.
Qed.

Lemma findLink_shorter s f :
  findLink s = Some f → (String.length (after f) < String.length s)%nat.
Proof.
  revert f. induction s as [|c s IH]; intros f; simpl; [done|].
  assert (Hskip : match findLink s with
                  | Some f0 => Some (mkMatch (String c (before f0)) (matched f0) (after f0))
                  | None => None
                  end = Some f → (String.length (after f) < S (String.length s))%nat).
  { destruct (findLink s) as [f0|]; [|done].
    intros [= <-]. specialize (IH _ eq_refl). simpl. lia. }
  destruct (is_hash c); [|done].
  pose proof (span_digits_length s) as Hlen.
  destruct (span_digits s) as [[|d ds] r]; [done|].
  intros [= <-]. simpl in *. lia.
Qed.

Lemma is_hash_true (c : ascii) : is_hash c = true → c = "#"%char.
Proof. apply Ascii.eqb_eq. Qed.

Lemma starts_with_digit_app (s t : string) :
  s ≠ EmptyString → starts_with_digit (s +:+ t) = starts_with_digit s.
Proof. by destruct s. Qed.

Lemma starts_with_digit_before (s t : string) :
  starts_with_digit s = false → starts_with_digit t = false →
  starts_with_digit (s +:+ t) = false.
Proof. by destruct s. Qed.

Lemma span_digits_nondigit (s : string) :
  starts_with_digit s = false → span_digits s = (EmptyString, s).
Proof. destruct s as [|c s]; simpl; [done|]. by intros ->. Qed.

Lemma span_digits_app (ds rest : string) :
  all_digits ds = true → starts_with_digit rest = false →
  span_digits (ds +:+ rest) = (ds, rest).
Proof.
  intros Hds Hrest. induction ds as [|c ds IH].
  - by apply span_digits_nondigit.
  - simpl in Hds. apply andb_prop in Hds as [Hc Hds].
    rewrite app_cons. simpl. by rewrite Hc, IH.
Qed.

Lemma span_digits_spec (s ds rest : string) :
  span_digits s = (ds, rest) →
  s = ds +:+ rest ∧ all_digits ds = true ∧ starts_with_digit rest = false.
Proof.
  revert ds rest. induction s as [|c s IH]; intros ds rest; simpl.
  - by intros [= <- <-].
  - destruct (is_digit c) eqn:Hc.
    + destruct (span_digits s) as [ds' rest'].
      intros [= <- <-]. destruct (IH _ _ eq_refl) as (-> & Hds & Hrest).
      simpl. by rewrite Hc, Hds.
    + intros [= <- <-]. simpl. by rewrite Hc.
Qed.

(** The boolean test agrees with the definition of [no_link]. *)
Lemma has_link_occurrence (pre ds post : string) (d : ascii) :
  is_digit d = true → has_link (pre +:+ String "#" (String d ds) +:+ post) = true.
Proof.
  intros Hd. induction pre as [|c pre IH].
  - rewrite app_nil_l, app_cons. simpl. by rewrite Hd.
  - rewrite app_cons. simpl. rewrite IH. apply orb_true_r.
Qed.

Lemma no_link_of_has_link (t : string) : has_link t = false → no_link t.
Proof.
  intros Hf pre x post -> (ds & -> & Hne & Hds).
  destruct ds as [|d ds]; [done|]. simpl in Hds.
  apply andb_prop in Hds as [Hd _].
  rewrite link_cons, (has_link_occurrence pre ds post d Hd) in Hf. done.
Qed.

Lemma no_link_tail (c : ascii) (t : string) : no_link (String c t) → no_link t.
Proof. intros Hn pre x post ->. by apply (Hn (String c pre) x post). Qed.

Lemma has_link_of_no_link (t : string) : no_link t → has_link t = false.
Proof.
  induction t as [|c t IH]; intros Hn; [done|]. simpl.
  rewrite (IH (no_link_tail _ _ Hn)), orb_false_r.
  destruct (is_hash c) eqn:Hc; [|done]. apply is_hash_true in Hc as ->.
  destruct t as [|d t]; [done|]. simpl.
  destruct (is_digit d) eqn:Hd; [|done].
  destruct (Hn EmptyString (String "#" (String d EmptyString)) t eq_refl).
  exists (String d EmptyString). simpl. by rewrite Hd.
Qed.

Lemma no_link_iff (t : string) : no_link t ↔ has_link t = false.
Proof. split; [apply has_link_of_no_link | apply no_link_of_has_link]. Qed.

(** The engine finds a reference where one stands after link-free text. *)
Lemma findLink_complete (lead ds rest : string) :
  has_link lead = false → ds ≠ EmptyString → all_digits ds = true →
  starts_with_digit rest = false →
  findLink (lead +:+ link ds +:+ rest) = Some (mkMatch lead (link ds) rest).
Proof.
  intros Hlead Hne Hds Hrest. induction lead as [|c lead IH].
  - rewrite app_nil_l, link_cons, app_cons. simpl.
    rewrite (span_digits_app ds rest Hds Hrest). by destruct ds.
  - simpl in Hlead. apply orb_false_elim in Hlead as [Hc Hlead].
    rewrite app_cons. simpl. rewrite (IH Hlead). simpl.
    destruct (is_hash c); [|done]. simpl in Hc.
    rewrite span_digits_nondigit; [done|].
    destruct lead; [done|]. by rewrite app_cons.
Qed.

Lemma findLink_none (s : string) : findLink s = None → has_link s = false.
Proof.
  induction s as [|c s IH]; simpl; [done|].
  destruct (findLink s) as [f0|] eqn:Hf.
  - destruct (is_hash c); [|done].
    by destruct (span_digits s) as [[|d ds] rest].
  - rewrite (IH eq_refl), orb_false_r.
    destruct (is_hash c); [|done].
    destruct (span_digits s) as [[|d ds] rest] eqn:Hsp; [|done].
    apply span_digits_spec in Hsp as (-> & _ & Hrest). by rewrite app_nil_l.
Qed.
End Pattern.

Section Rewriting.

Lemma findLink_some (s : string) (f : Match) :
  findLink s = Some f →
  s = before f +:+ matched f +:+ after f ∧ has_link (before f) = false ∧
  ∃ ds, matched f = link ds ∧ ds ≠ EmptyString ∧ all_digits ds = true ∧
        starts_with_digit (after f) = false.
Proof.
  revert f. induction s as [|c s IH]; intros f; simpl; [done|].
  assert (Hskip : (is_hash c && starts_with_digit s) = false →
            match findLink s with
            | Some f0 => Some (mkMatch (String c (before f0)) (matched f0) (after f0))
            | None => None
            end = Some f →
            String c s = before f +:+ matched f +:+ after f ∧
            has_link (before f) = false ∧
            ∃ ds, matched f = link ds ∧ ds ≠ EmptyString ∧ all_digits ds = true ∧
                  starts_with_digit (after f) = false).
  { intros Hc. destruct (findLink s) as [f0|]; [|done].
    intros [= <-]. destruct (IH _ eq_refl) as (Hs & Hb & ds & Hm & Hrest).
    simpl. split_and!; [by rewrite app_cons, <- Hs| |by exists ds].
    rewrite Hb, orb_false_r.
    destruct (is_hash c); [|done]. simpl in *.
    destruct (before f0) as [|b bs] eqn:Hbf; [done|].
    rewrite Hs, app_cons in Hc. done. }
  destruct (is_hash c) eqn:Hc; [|by apply Hskip].
  destruct (span_digits s) as [[|d ds] rest] eqn:Hsp.
  - apply span_digits_spec in Hsp as (-> & _ & Hrest).
    rewrite app_nil_l. by apply Hskip.
  - intros [= <-]. apply span_digits_spec in Hsp as (-> & Hds & Hrest).
    apply is_hash_true in Hc as ->. simpl.
    split_and!; [done..|]. by exists (String d ds).
Qed.

Lemma ReplaceAll_none (repl : string → string) (src : string) :
  findLink src = None → ReplaceAllStringFunc repl src = src.
Proof.
  intros Hn. funelim (ReplaceAllStringFunc repl src); [congruence|done].
Qed.

Lemma ReplaceAll_some (repl : string → string) (src : string) (f : Match) :
  findLink src = Some f →
  ReplaceAllStringFunc repl src
  = before f +:+ repl (matched f) +:+ ReplaceAllStringFunc repl (after f).
Proof.
  intros Hs. funelim (ReplaceAllStringFunc repl src); [|congruence].
  rewrite Hfind in Hs. by injection Hs as ->.
Qed.

Lemma assemble_no_leading_digit (render : string → string) (refs : list (string * string)) :
  (∀ ds, starts_with_digit (render ds) = false ∧ render ds ≠ EmptyString) →
  starts_with_digit (assemble render refs) = false.
Proof.
  intros Hr. destruct refs as [|[ds text] refs]; [done|]. simpl.
  destruct (Hr ds) as [Hd Hne]. by rewrite starts_with_digit_app.
Qed.

Lemma link_no_leading_digit (ds : string) :
  starts_with_digit (link ds) = false ∧ link ds ≠ EmptyString.
Proof. done. Qed.

(** Replacing all matches of a text that is cut into references
    replaces the references and nothing else. *)
Lemma ReplaceAll_assemble (repl : string → string) (lead : string)
  (refs : list (string * string)) :
  no_link lead → Forall wf_ref refs →
  ReplaceAllStringFunc repl (lead +:+ assemble link refs)
  = lead +:+ assemble (λ ds, repl (link ds)) refs.
Proof.
  intros Hlead Hrefs. revert lead Hlead.
  induction Hrefs as [|[ds text] refs (Hne & Hds & Htext & Hnl) _ IH];
    intros lead Hlead; cbn [assemble].
  - rewrite app_nil_r. apply ReplaceAll_none.
    destruct (findLink lead) as [f|] eqn:Hf; [|done].
    apply findLink_some in Hf as (Hsrc & _ & ds & Hm & Hne & Hds & _).
    destruct (Hlead _ _ _ Hsrc). by exists ds.
  - simpl in Hne, Hds, Htext, Hnl.
    rewrite (ReplaceAll_some repl _ (mkMatch lead (link ds) (text +:+ assemble link refs))).
    + simpl. by rewrite (IH text Hnl).
    + apply findLink_complete; [by apply has_link_of_no_link|done..|].
      apply starts_with_digit_before; [done|].
      apply assemble_no_leading_digit, link_no_leading_digit.
Qed.

(** Every text is cut into references in this way. *)
Lemma decomposition_exists (body : string) :
  ∃ lead refs, body = lead +:+ assemble link refs ∧ no_link lead ∧ Forall wf_ref refs.
Proof.
  remember (String.length body) as n eqn:Hn. revert body Hn.
  induction n as [n IH] using lt_wf_ind. intros body ->.
  destruct (findLink body) as [f|] eqn:Hf.
  - pose proof (findLink_shorter _ _ Hf) as Hlt.
    apply findLink_some in Hf as (Hbody & Hb & ds & Hm & Hne & Hds & Hafter).
    destruct (IH _ Hlt (after f) eq_refl) as (lead' & refs' & Ha & Hl' & Hr').
    exists (before f), ((ds, lead') :: refs'). split_and!.
    + cbn [assemble]. by rewrite <- Ha, <- Hm.
    + by apply no_link_of_has_link.
    + constructor; [|done]. split_and!; simpl; [done..| |done].
      rewrite Ha in Hafter. destruct lead'; [done|by rewrite app_cons in Hafter].
  - exists body, []. simpl. rewrite app_nil_r.
    split_and!; [done| |done]. by apply no_link_of_has_link, findLink_none.
Qed.


Lemma TrimPrefix_link (ds : string) : TrimPrefix (link ds) "#" = ds.
Proof. reflexivity. Qed.

Lemma replaceLink_link (oldToNew : gmap Z Z) (ds : string) :
  replaceLink oldToNew (link ds) = newLink oldToNew (Atoi ds).1 ds.
Proof.
  unfold replaceLink, newLink. rewrite TrimPrefix_link.
  by destruct (Atoi ds) as [oldNum err].
Qed.

End Rewriting.

(** ** strconv.Atoi on runs of digits *)

Section AtoiFacts.

Lemma digit_val_range (c : ascii) : is_digit c = true → 0 ≤ digit_val c ≤ 9.
Proof.
  unfold is_digit, digit_val. intros Hc. apply andb_prop in Hc as [Hlo Hhi].
  apply Nat.leb_le in Hlo, Hhi. lia.
Qed.

Lemma digit_not_sign (c : ascii) :
  is_digit c = true → Ascii.eqb c "-" = false ∧ Ascii.eqb c "+" = false.
Proof.
  intros Hc. split; apply Ascii.eqb_neq; intros ->; discriminate Hc.
Qed.

Lemma decimal_bounds (ds : string) (acc : Z) :
  all_digits ds = true → 0 ≤ acc →
  acc * 10 ^ Z.of_nat (String.length ds) ≤ decimal acc ds
  ∧ decimal acc ds < (acc + 1) * 10 ^ Z.of_nat (String.length ds).
Proof.
  revert acc. induction ds as [|c ds IH]; intros acc Hds Hacc.
  - simpl. lia.
  - simpl in Hds. apply andb_prop in Hds as [Hc Hds].
    apply digit_val_range in Hc.
    cbn [decimal String.length]. rewrite Nat2Z.inj_succ, Z.pow_succ_r by lia.
    destruct (IH (acc * 10 + digit_val c) Hds ltac:(lia)) as [Hlo Hhi].
    assert (0 < 10 ^ Z.of_nat (String.length ds)) by (apply Z.pow_pos_nonneg; lia).
    nia.
Qed.

Lemma decimal_ge (ds : string) (acc : Z) :
  all_digits ds = true → 0 ≤ acc → acc ≤ decimal acc ds.
Proof.
  intros Hds Hacc. destruct (decimal_bounds ds acc Hds Hacc) as [Hlo _].
  assert (0 < 10 ^ Z.of_nat (String.length ds)) by (apply Z.pow_pos_nonneg; lia).
  nia.
Qed.

Lemma atoiFast_decimal (ds : string) (acc : Z) :
  all_digits ds = true → atoiFast acc ds = Some (decimal acc ds).
Proof.
  revert acc. induction ds as [|c ds IH]; intros acc Hds; [done|].
  simpl in Hds. apply andb_prop in Hds as [Hc Hds]. simpl. by rewrite Hc, IH.
Qed.

Lemma maxUint64_eq : maxUint64 = 18446744073709551615.
Proof. reflexivity. Qed.

Lemma maxInt_eq : maxInt = 9223372036854775807.
Proof. reflexivity. Qed.

Lemma parseUintLoop_digits (ds : string) (n : Z) :
  all_digits ds = true → 0 ≤ n ≤ maxUint64 →
  parseUintLoop n ds
  = if decimal n ds <=? maxUint64 then (decimal n ds, None)
    else (maxUint64, Some ErrRange).
Proof.
  revert n. induction ds as [|c ds IH]; intros n Hds Hn.
  - simpl. destruct (Z.leb_spec n maxUint64); [done|lia].
  - simpl in Hds. apply andb_prop in Hds as [Hc Hds].
    cbn [parseUintLoop decimal]. rewrite Hc.
    pose proof (digit_val_range c Hc) as Hd.
    pose proof (decimal_ge ds (n * 10 + digit_val c) Hds ltac:(lia)) as Hge.
    rewrite maxUint64_eq in *.
    change (18446744073709551615 / 10 + 1) with 1844674407370955162.
    change (2 ^ 64) with 18446744073709551616.
    destruct (Z.leb_spec 1844674407370955162 n) as [Hcut|Hcut].
    { destruct (Z.leb_spec (decimal (n * 10 + digit_val c) ds) 18446744073709551615);
        [lia|done]. }
    cbv zeta.
    destruct (Z.le_gt_cases 18446744073709551616 (n * 10 + digit_val c)) as [Hov|Hov].
    + assert (Hmod : (n * 10 + digit_val c) mod 18446744073709551616
                     = n * 10 + digit_val c - 18446744073709551616).
      { symmetry. apply (Z.mod_unique _ _ 1); lia. }
      rewrite Hmod.
      destruct (Z.ltb_spec (n * 10 + digit_val c - 18446744073709551616) (n * 10));
        [|lia].
      simpl. destruct (Z.leb_spec (decimal (n * 10 + digit_val c) ds) 18446744073709551615);
        [lia|done].
    + rewrite Z.mod_small by lia.
      destruct (Z.ltb_spec (n * 10 + digit_val c) (n * 10)); [lia|].
      destruct (Z.ltb_spec 18446744073709551615 (n * 10 + digit_val c)); [lia|].
      simpl. by rewrite IH by (done || lia).
Qed.

(** On a run of digits [Atoi] returns the number it denotes, or the
    largest [int] together with a range error when that number does not
    fit. *)
Lemma Atoi_digits (ds : string) :
  ds ≠ EmptyString → all_digits ds = true →
  Atoi ds = if digitsValue ds <=? maxInt then (digitsValue ds, None)
            else (maxInt, Some ErrRange).
Proof.
  intros Hne Hds. destruct ds as [|c0 ds']; [done|].
  pose proof Hds as Hds0. simpl in Hds0. apply andb_prop in Hds0 as [Hc0 Hds'].
  destruct (digit_not_sign c0 Hc0) as [Hminus Hplus].
  unfold Atoi, digitsValue.
  destruct ((0 <? String.length (String c0 ds'))%nat
            && (String.length (String c0 ds') <? 19)%nat) eqn:Hfast.
  - apply andb_prop in Hfast as [_ Hlen]. apply Nat.ltb_lt in Hlen.
    rewrite Hminus, Hplus. cbn [orb].
    rewrite (atoiFast_decimal _ 0 Hds).
    destruct (decimal_bounds _ 0 Hds ltac:(lia)) as [_ Hhi].
    assert (10 ^ Z.of_nat (String.length (String c0 ds')) ≤ 10 ^ 18)
      by (apply Z.pow_le_mono_r; lia).
    rewrite maxInt_eq.
    destruct (Z.leb_spec (decimal 0 (String c0 ds')) 9223372036854775807); [done|lia].
  - unfold ParseInt. rewrite Hplus, Hminus. unfold ParseUint.
    rewrite (parseUintLoop_digits _ 0 Hds) by (rewrite maxUint64_eq; lia).
    rewrite maxInt_eq, maxUint64_eq.
    change (2 ^ (intSize - 1)) with 9223372036854775808.
    pose proof (decimal_ge _ 0 Hds ltac:(lia)) as Hge.
    destruct (Z.leb_spec (decimal 0 (String c0 ds')) 18446744073709551615) as [Hu|Hu];
      cbn [negb andb].
    + destruct (Z.leb_spec 9223372036854775808 (decimal 0 (String c0 ds')));
        destruct (Z.leb_spec (decimal 0 (String c0 ds')) 9223372036854775807);
        done || lia.
    + destruct (Z.leb_spec (decimal 0 (String c0 ds')) 9223372036854775807);
        [lia|done].
Qed.

End AtoiFacts.

(** ** Facts about the decimal rendering *)

Section Formatting.

Lemma all_digits_app (s t : string) :
  all_digits (s +:+ t) = all_digits s && all_digits t.
Proof.
  induction s as [|c s IH]; [done|].
  rewrite app_cons. cbn [all_digits]. rewrite IH. by destruct (is_digit c).
Qed.

Lemma decimal_app (s t : string) (acc : Z) :
  decimal acc (s +:+ t) = decimal (decimal acc s) t.
Proof.
  revert acc. induction s as [|c s IH]; intros acc; [done|].
  rewrite app_cons. cbn [decimal]. apply IH.
Qed.

Lemma pretty_N_char_digit (x : N) :
  (x < 10)%N →
  is_digit (pretty_N_char x) = true ∧ digit_val (pretty_N_char x) = Z.of_N x ∧
  ((0 < x)%N → Ascii.eqb (pretty_N_char x) "0" = false).
Proof.
  intros Hx.
  assert (x = 0 ∨ x = 1 ∨ x = 2 ∨ x = 3 ∨ x = 4 ∨ x = 5 ∨ x = 6 ∨ x = 7 ∨ x = 8
          ∨ x = 9)%N as Hc by lia.
  destruct Hc as [->|Hc]; [split_and!; [done|done|lia]|].
  repeat (destruct Hc as [->|Hc]; [done|]). by subst x.
Qed.

Lemma HasPrefix_app (s t : string) (p : ascii) :
  s ≠ EmptyString → HasPrefix (s +:+ t) (String.String p EmptyString)
                    = HasPrefix s (String.String p EmptyString).
Proof. by destruct s. Qed.

(** [pretty_N_go x s] puts the decimal digits of [x] in front of [s],
    the first of them not a zero. *)
Lemma pretty_N_go_digits (x : N) (s : string) :
  ∃ ds, pretty_N_go x s = ds +:+ s ∧ all_digits ds = true ∧
        decimal 0 ds = Z.of_N x ∧
        ((0 < x)%N → ds ≠ EmptyString ∧ HasPrefix ds "0" = false).
Proof.
  revert s. induction (N.lt_wf_0 x) as [x _ IH]. intros s.
  destruct (decide (x = 0%N)) as [->|Hx].
  { exists EmptyString. rewrite pretty_N_go_0. split_and!; [done|done|done|lia]. }
  rewrite pretty_N_go_step by lia.
  destruct (pretty_N_char_digit (x `mod` 10)%N) as (Hd & Hv & Hnz).
  { apply N.mod_lt. lia. }
  destruct (decide (x `div` 10 = 0)%N) as [Hsmall|Hlarge].
  { rewrite Hsmall, pretty_N_go_0.
    assert (Hmod : (x `mod` 10 = x)%N).
    { pose proof (N.div_mod x 10 ltac:(lia)). lia. }
    exists (String (pretty_N_char (x `mod` 10)) EmptyString). split_and!.
    - done.
    - cbn. by rewrite Hd.
    - cbn [decimal]. rewrite Hv, Hmod. lia.
    - intros _. split; [done|]. cbn. rewrite Hnz; [done|lia]. }
  destruct (IH (x `div` 10)%N) with (s := String (pretty_N_char (x `mod` 10)) s)
    as (ds & -> & Hds & Hval & Hlead).
  { apply N.div_lt; lia. }
  destruct Hlead as [Hne Hzero]; [by apply N.neq_0_lt_0|].
  exists (ds +:+ String (pretty_N_char (x `mod` 10)) EmptyString). split_and!.
  - by rewrite app_assoc, app_cons, app_nil_l.
  - rewrite all_digits_app, Hds. cbn. by rewrite Hd.
  - rewrite decimal_app, Hval. cbn [decimal]. rewrite Hv.
    rewrite (N.div_mod x 10) at 3 by lia. lia.
  - intros _. split; [by destruct ds|]. by rewrite HasPrefix_app.
Qed.

Lemma fmt_d_decimalOf (n : Z) : 0 ≤ n → decimalOf n (fmt_d n).
Proof.
  intros Hn. destruct n as [|p|p]; [by split_and!; [..|left]| |lia].
  unfold fmt_d, pretty, pretty_Z, pretty, pretty_positive, pretty, pretty_N.
  rewrite decide_False by done.
  destruct (pretty_N_go_digits (N.pos p) EmptyString) as (ds & -> & Hds & Hval & Hlead).
  destruct Hlead as [Hne Hzero]; [lia|].
  rewrite app_nil_r. split_and!; [done|done|exact Hval|by right].
Qed.

Lemma fmt_d_digits (n : Z) :
  0 ≤ n →
  fmt_d n ≠ EmptyString ∧ all_digits (fmt_d n) = true ∧ digitsValue (fmt_d n) = n.
Proof. intros Hn. by destruct (fmt_d_decimalOf n Hn) as (? & ? & ? & _). Qed.



End Formatting.


(** ** The rewriter on a body text *)

Section RewriterFacts.

Lemma updatedBodyOf_assemble (oldToNew : gmap Z Z) (lead : string)
  (refs : list (string * string)) :
  no_link lead → Forall wf_ref refs →
  updatedBodyOf oldToNew (lead +:+ assemble link refs)
  = lead +:+ assemble (λ ds, newLink oldToNew (Atoi ds).1 ds) refs.
Proof.
  intros Hlead Hrefs. unfold updatedBodyOf.
  rewrite ReplaceAll_assemble by done. f_equal.
  clear Hrefs. induction refs as [|[ds text] refs IH]; [done|].
  cbn [assemble]. by rewrite replaceLink_link, IH.
Qed.

Lemma updatedBodyOf_no_link (oldToNew : gmap Z Z) (body : string) :
  no_link body → updatedBodyOf oldToNew body = body.
Proof.
  intros Hn. apply ReplaceAll_none.
  destruct (findLink body) as [f|] eqn:Hf; [|done].
  apply findLink_some in Hf as (Hsrc & _ & ds & Hm & Hne & Hds & _).
  destruct (Hn _ _ _ Hsrc). by exists ds.
Qed.

Lemma assemble_ext (f g : string → string) (refs : list (string * string)) :
  Forall (λ r, f r.1 = g r.1) refs → assemble f refs = assemble g refs.
Proof.
  induction 1 as [|[ds text] refs Hfg _ IH]; [done|].
  cbn [assemble]. simpl in Hfg. by rewrite Hfg, IH.
Qed.

(** The example of the specification: issue 5 refers to [#3], and 3 was
    recreated as 30; other digits stay. *)
Example rewrite_issue_5 :
  updatedBodyOf {[ 3 := 30; 5 := 50 ]} "Depends on #3 (3 of 7), not on #4 or #."
  = "Depends on #30 (3 of 7), not on #4 or #.".
Proof. reflexivity. Qed.

(** Outside the integer range the parse saturates and its error is
    dropped: the reference is looked up under the largest [int]. *)
Example rewrite_out_of_range :
  Atoi "9223372036854775808" = (maxInt, Some ErrRange) ∧
  updatedBodyOf {[ maxInt := 7 ]} "see #9223372036854775808" = "see #7".
Proof. split; reflexivity. Qed.

End RewriterFacts.

(** ** Runs of the phases *)

Section RunFacts.
Context `{Platform} `{!Client}.

Lemma forEach_cons {A S : Type} (body : S → A → M S) (s : S) (x : A) (xs : list A)
  (h : list Event) :
  forEach body s (x :: xs) h
  = ((forEach body (body s x h).1 xs (h ++ (body s x h).2)).1,
     (body s x h).2 ++ (forEach body (body s x h).1 xs (h ++ (body s x h).2)).2).
Proof.
  cbn [forEach]. unfold bind. destruct (body s x h) as [s' t1]. simpl.
  by destruct (forEach body s' xs (h ++ t1)).
Qed.

Lemma createCalls_app (t1 t2 : list Event) :
  createCalls (t1 ++ t2) = createCalls t1 ++ createCalls t2.
Proof. apply omap_app. Qed.

Lemma commentCalls_app (t1 t2 : list Event) :
  commentCalls (t1 ++ t2) = commentCalls t1 ++ commentCalls t2.
Proof. apply omap_app. Qed.

Lemma editCalls_app (t1 t2 : list Event) :
  editCalls (t1 ++ t2) = editCalls t1 ++ editCalls t2.
Proof. apply omap_app. Qed.

Lemma labelCalls_app (t1 t2 : list Event) :
  labelCalls (t1 ++ t2) = labelCalls t1 ++ labelCalls t2.
Proof. apply omap_app. Qed.

Lemma milestoneCalls_app (t1 t2 : list Event) :
  milestoneCalls (t1 ++ t2) = milestoneCalls t1 ++ milestoneCalls t2.
Proof. apply omap_app. Qed.

(** *** Phase 3 *)

Lemma labelNamesOf_map (labels : list Label) :
  labelNamesOf labels = Label_Name <$> labels.
Proof.
  unfold labelNamesOf.
  enough (Hgen : ∀ acc, foldl (λ labelNames label, labelNames ++ [Label_Name label])
                          acc labels = acc ++ (Label_Name <$> labels))
    by apply (Hgen []).
  induction labels as [|l labels IH]; intros acc; simpl.
  - by rewrite List.app_nil_r.
  - by rewrite IH, <- List.app_assoc.
Qed.

Lemma combineComments_consolidated (comments : list Comment) :
  combineComments comments = consolidated comments.
Proof.
  unfold combineComments, consolidated.
  enough (Hgen : ∀ acc,
    foldl (λ combinedComments comment,
             WriteString
               (WriteString (WriteString combinedComments (commentHeader comment))
                            (Comment_Body comment))
               commentsSeparator) acc comments
    = acc +:+ concat_str (renderComment <$> comments)).
  { rewrite Hgen. unfold WriteString, commentsHeader.
    by rewrite app_nil_l, !StringFacts.app_assoc. }
  induction comments as [|c comments IH]; intros acc; simpl.
  - by rewrite StringFacts.app_nil_r.
  - rewrite IH. unfold WriteString, commentHeader, commentsSeparator, renderComment.
    by rewrite !StringFacts.app_assoc.
Qed.

Lemma consolidated_not_empty (comments : list Comment) :
  (0 <? String.length (consolidated comments))%nat = true.
Proof. done. Qed.

Lemma postComments_calls (owner repo : string) (number : Z) (comments : list Comment)
  (h : list Event) :
  commentCalls (postComments owner repo number comments h).2
  = expectedComment number comments
  ∧ createCalls (postComments owner repo number comments h).2 = [].
Proof.
  unfold postComments. destruct comments as [|c comments]; [done|].
  change (0 <? length (c :: comments))%nat with true. cbv iota.
  rewrite combineComments_consolidated.
  rewrite consolidated_not_empty. unfold bind, log_Printf, CreateComment. simpl.
  by destruct (Issues_CreateComment _ _ _ _ _).
Qed.

Lemma createIssue1_failed (owner repo : string) (mtn : gmap string Z)
  (oldToNew : gmap Z Z) (issue : Issue) (h : list Event) (e : string) :
  createAnswer owner repo mtn issue h = Err e →
  createIssue1 owner repo mtn oldToNew issue h
  = (oldToNew,
     [createLog issue;
      CallCreate owner repo (newIssueRequestOf mtn issue) (Err e);
      Log ("Failed to create issue " +:+ dquote +:+ Issue_Title issue +:+ dquote
           +:+ ": " +:+ e)]).
Proof.
  unfold createAnswer, createLog, createIssue1, bind, log_Printf, Create, ret.
  simpl. by intros ->.
Qed.

Lemma createIssue1_spec (owner repo : string) (mtn : gmap string Z)
  (oldToNew : gmap Z Z) (issue : Issue) (h : list Event) :
  let r := createAnswer owner repo mtn issue h in
  let run := createIssue1 owner repo mtn oldToNew issue h in
  run.1 = recordCreated oldToNew issue r ∧
  createCalls run.2 = [(newIssueRequestOf mtn issue, r)] ∧
  commentCalls run.2
  = match r with
    | Ok created => expectedComment (gi_GetNumber created) (Issue_Comments issue)
    | Err _ => []
    end.
Proof.
  intros r run. subst r run.
  destruct (createAnswer owner repo mtn issue h) as [created|e] eqn:Hr.
  - unfold createAnswer, createLog in Hr.
    unfold createIssue1, bind, log_Printf, Create, ret. simpl. rewrite Hr.
    match goal with
    | |- context [postComments ?o ?r ?n ?c ?h'] =>
        pose proof (postComments_calls o r n c h') as [Hc Hk];
        destruct (postComments o r n c h') as [[] t]
    end.
    simpl in *. rewrite List.app_nil_r. by rewrite Hc, Hk.
  - by rewrite (createIssue1_failed _ _ _ _ _ _ _ Hr).
Qed.

Lemma createIssueAndComment_gen (owner repo : string) (mtn : gmap string Z)
  (issues : list Issue) (oldToNew : gmap Z Z) (h : list Event) :
  let run := forEach (createIssue1 owner repo mtn) oldToNew issues h in
  (createCalls run.2).*1 = newIssueRequestOf mtn <$> issues ∧
  run.1 = foldl (λ m ir, recordCreated m ir.1 ir.2) oldToNew
                (zip issues (createOutcomes run.2)) ∧
  commentCalls run.2
  = mjoin ((λ ir, match ir.2 with
                  | Ok created =>
                      expectedComment (gi_GetNumber created) (Issue_Comments ir.1)
                  | Err _ => []
                  end) <$> zip issues (createOutcomes run.2)).
Proof.
  revert oldToNew h. induction issues as [|issue issues IH]; intros oldToNew h.
  - done.
  - cbv zeta. rewrite forEach_cons.
    destruct (createIssue1_spec owner repo mtn oldToNew issue h) as (Hm & Hc & Hk).
    destruct (IH (createIssue1 owner repo mtn oldToNew issue h).1
                (h ++ (createIssue1 owner repo mtn oldToNew issue h).2))
      as (IHc & IHm & IHk).
    cbn [fst snd]. unfold createOutcomes in *.
    rewrite createCalls_app, commentCalls_app, Hc, Hk, IHk.
    cbn [fmap list_fmap app zip zip_with foldl mjoin list_join fst snd].
    split_and!.
    + by rewrite IHc.
    + by rewrite IHm, Hm.
    + done.
Qed.

(** *** Phase 4 *)

Lemma updateIssue1_edits (owner repo : string) (oldToNew : gmap Z Z) (issue : Issue)
  (h : list Event) :
  editCalls (updateIssue1 owner repo oldToNew tt issue h).2
  = expectedEdit oldToNew issue.
Proof.
  unfold updateIssue1, expectedEdit.
  destruct (oldToNew !! Issue_Number issue) as [newNumber|]; [|done].
  cbv zeta.
  destruct (String.eqb_spec (updatedBodyOf oldToNew (Issue_Body issue))
              (Issue_Body issue)) as [Heq|Hne].
  - rewrite decide_True by done. done.
  - rewrite decide_False by done.
    unfold bind, log_Printf, Edit. simpl.
    by destruct (Issues_Edit _ _ _ _ _).
Qed.

Lemma updateIssueLinks_edits (owner repo : string) (issues : list Issue)
  (oldToNew : gmap Z Z) (h : list Event) :
  editCalls (updateIssueLinks owner repo issues oldToNew h).2
  = issues ≫= expectedEdit oldToNew.
Proof.
  unfold updateIssueLinks. revert h.
  induction issues as [|issue issues IH]; intros h; [done|].
  rewrite forEach_cons. cbn [snd].
  destruct (updateIssue1 owner repo oldToNew tt issue h) as [[] t] eqn:Hstep.
  pose proof (updateIssue1_edits owner repo oldToNew issue h) as Hedit.
  rewrite Hstep in Hedit. cbn [fst snd] in *.
  by rewrite editCalls_app, Hedit, IH.
Qed.

(** *** Phase 1 *)

Lemma foldl_insert_lookup {V : Type} (key : V → string) (l : list V)
  (acc : gmap string V) (k : string) :
  foldl (λ a v, <[key v := v]> a) acc l !! k
  = match last_with (λ v, key v = k) l with
    | Some v => Some v
    | None => acc !! k
    end.
Proof.
  unfold last_with. revert acc. induction l as [|v l IH]; intros acc; [done|].
  cbn [foldl]. rewrite IH, filter_cons.
  destruct (decide (key v = k)) as [Hk|Hk].
  - rewrite last_cons. destruct (last (filter _ l)); [done|].
    by rewrite Hk, lookup_insert_eq.
  - destruct (last (filter _ l)); [done|]. by rewrite lookup_insert_ne.
Qed.

Lemma foldl_collectIssue (issues : list Issue)
  (acc : gmap string Label * gmap string Milestone) :
  foldl collectIssue acc issues
  = (foldl (λ a v, <[Label_Name v := v]> a) acc.1 (issues ≫= Issue_Labels),
     foldl (λ a v, <[Milestone_Title v := v]> a) acc.2 (omap Issue_Milestone issues)).
Proof.
  revert acc. induction issues as [|issue issues IH]; intros [ls ms]; [done|].
  cbn [foldl mbind list_bind omap list_omap]. rewrite IH.
  unfold collectIssue, collectLabels. cbn [fst snd]. rewrite foldl_app.
  by destruct (Issue_Milestone issue).
Qed.

Lemma last_with_is_Some {V : Type} (key : V → string) (l : list V) (k : string) :
  is_Some (last_with (λ v, key v = k) l) ↔ k ∈ key <$> l.
Proof.
  unfold last_with. rewrite last_is_Some, list_elem_of_fmap. split.
  - intros Hne. destruct (filter _ l) as [|v l'] eqn:Hf; [done|].
    assert (Hv : v ∈ filter (λ v, key v = k) l) by (rewrite Hf; left).
    apply list_elem_of_filter in Hv as [Hk Hv]. by exists v.
  - intros (v & -> & Hv) Hnil.
    by apply (filter_nil_not_elem_of _ _ v Hnil).
Qed.

Lemma size_keyed {V : Type} (key : V → string) (l : list V) (m : gmap string V) :
  (∀ k, m !! k = last_with (λ v, key v = k) l) →
  size m = length (remove_dups (key <$> l)).
Proof.
  intros Hm. rewrite <- size_dom.
  rewrite <- (size_list_to_set (C:=gset string)) by apply NoDup_remove_dups.
  f_equal. apply set_eq. intros k.
  rewrite elem_of_dom, Hm, last_with_is_Some, elem_of_list_to_set.
  by rewrite elem_of_remove_dups.
Qed.

(** *** Phase 2: labels *)

Lemma createLabel1_skip (owner repo : string) (ex : gmap string bool)
  (name : string) (label : Label) (h : list Event) :
  default false (ex !! name) = true →
  createLabel1 owner repo ex tt (name, label) h = (tt, []).
Proof. unfold createLabel1. by intros ->. Qed.

Lemma createLabel1_create (owner repo : string) (ex : gmap string bool)
  (name : string) (label : Label) (h : list Event) :
  default false (ex !! name) = false →
  createLabel1 owner repo ex tt (name, label) h
  = (tt,
     let err := Issues_CreateLabel (h ++ [Log ("Creating label: [" +:+ name +:+ "]")])
                  owner repo (labelRequest label) in
     [Log ("Creating label: [" +:+ name +:+ "]");
      CallCreateLabel owner repo (labelRequest label) err]
     ++ match err with Some e => [labelWarning name e] | None => [] end).
Proof.
  unfold createLabel1. intros ->. cbn [negb].
  unfold bind, log_Printf, CreateLabel, labelRequest, labelWarning. simpl.
  by destruct (Issues_CreateLabel _ _ _ _).
Qed.

Lemma labelsLoop_spec (owner repo : string) (existingLabels : list GhLabel)
  (order : list (string * Label)) (h : list Event) :
  let run := forEach (createLabel1 owner repo (existingNames existingLabels)) tt
               order h in
  (labelCalls run.2).*1
  = (λ entry, labelRequest entry.2) <$> filter (labelMissing existingLabels) order
  ∧ ∀ req e, (req, Some e) ∈ labelCalls run.2 →
      ∃ name label, (name, label) ∈ order ∧ req = labelRequest label
                    ∧ labelWarning name e ∈ run.2.
Proof.
  revert h. induction order as [|[name label] order IH]; intros h.
  - split; [done|]. intros req e Hin. by apply elem_of_nil in Hin.
  - cbv zeta. rewrite forEach_cons, filter_cons. cbn [fst snd].
    destruct (decide (labelMissing existingLabels (name, label))) as [Hex|Hex];
      unfold labelMissing in Hex; cbn [fst] in Hex.
    + rewrite (createLabel1_create _ _ _ _ _ _ Hex). cbn [fst snd].
      set (err := Issues_CreateLabel _ _ _ _).
      set (t1 := _ ++ match err with Some _ => _ | None => _ end).
      destruct (IH (h ++ t1)) as [IHc IHw].
      assert (Ht1 : labelCalls t1 = [(labelRequest label, err)])
        by (subst t1; by destruct err).
      rewrite labelCalls_app, Ht1. cbn [app fmap list_fmap fst snd].
      split; [by rewrite IHc|].
      intros req e [Hhd|Hin]%elem_of_cons.
      * injection Hhd as -> Herr.
        exists name, label. split_and!; [by left|done|].
        apply elem_of_app. left. subst t1. rewrite <- Herr.
        apply elem_of_app. right. by left.
      * destruct (IHw req e Hin) as (n & l & Hnl & Hreq & Hlog).
        exists n, l. split_and!; [by right|done|].
        apply elem_of_app. by right.
    + apply not_false_is_true in Hex.
      rewrite (createLabel1_skip _ _ _ _ _ _ Hex). cbn [fst snd app].
      rewrite List.app_nil_r. destruct (IH h) as [IHc IHw].
      split; [done|].
      intros req e Hin. destruct (IHw req e Hin) as (n & l & Hnl & Hreq & Hlog).
      exists n, l. split_and!; [by right|done..].
Qed.

Lemma createLabels_failed (owner repo : string) (labels : gmap string Label)
  (h : list Event) (e : string) :
  Issues_ListLabels h owner repo = Err e →
  createLabels owner repo labels h
  = (Some ("failed to fetch existing labels: " +:+ e),
     [CallListLabels owner repo (Err e)]).
Proof. unfold createLabels, bind, ListLabels, ret. simpl. by intros ->. Qed.

Lemma createLabels_fetched (owner repo : string) (labels : gmap string Label)
  (h : list Event) (existingLabels : list GhLabel) :
  Issues_ListLabels h owner repo = Ok existingLabels →
  createLabels owner repo labels h
  = (None,
     CallListLabels owner repo (Ok existingLabels)
     :: (forEach (createLabel1 owner repo (existingNames existingLabels)) tt
           (rangeOrder labels)
           (h ++ [CallListLabels owner repo (Ok existingLabels)])).2).
Proof.
  unfold createLabels, bind, ListLabels, ret. simpl. intros ->.
  destruct (forEach _ _ _ _) as [[] t]. simpl. by rewrite List.app_nil_r.
Qed.

(** *** main *)

Lemma main_labels_failed (owner repo : string) (sourceIssues : list Issue)
  (h t1 : list Event) (e : string) :
  createLabels owner repo (foldl collectIssue (∅, ∅) sourceIssues).1
    (h ++ mainPreamble sourceIssues) = (Some e, t1) →
  main owner repo sourceIssues h
  = (Exited 1,
     mainPreamble sourceIssues ++ t1 ++ [Log ("failed to create labels: " +:+ e)]).
Proof.
  intros Hl.
  unfold main, findLablesAndMilestones, bind, log_Println, log_Printf, ret,
    log_Fatalf, mainPreamble in *.
  cbn [fst snd app] in *. rewrite <- !List.app_assoc. cbn [app].
  by rewrite Hl.
Qed.

(** *** Phase 2: milestones *)

Lemma milestoneRequest_title (title : string) (ms : Milestone) :
  gm_Title (milestoneRequest title ms).2 = Some (Milestone_Title ms)
  ∧ gm_Description (milestoneRequest title ms).2 = Some (Milestone_Description ms).
Proof.
  unfold milestoneRequest. destruct (Milestone_DueOn ms) as [d|]; [|done].
  by destruct (time_Parse RFC3339 d).
Qed.

Lemma createMilestone1_skip (owner repo : string) (mtn : gmap string Z)
  (title : string) (ms : Milestone) (h : list Event) (n : Z) :
  mtn !! title = Some n → createMilestone1 owner repo mtn (title, ms) h = (mtn, []).
Proof. unfold createMilestone1. by intros ->. Qed.

Lemma createMilestone1_create (owner repo : string) (mtn : gmap string Z)
  (title : string) (ms : Milestone) (h : list Event) :
  mtn !! title = None →
  createMilestone1 owner repo mtn (title, ms) h
  = (let req := (milestoneRequest title ms).2 in
     let res := Issues_CreateMilestone (h ++ milestoneLogs title ms) owner repo req in
     (match res with Ok created => recordMilestone mtn created | Err _ => mtn end,
      milestoneLogs title ms ++ [CallCreateMilestone owner repo req res]
      ++ milestoneFailure title res)).
Proof.
  unfold createMilestone1, milestoneLogs, milestoneFailure. intros ->.
  destruct (milestoneRequest title ms) as [[w|] req];
    unfold bind, log_Printf, CreateMilestone, ret; cbn [fst snd app];
    rewrite <- ?List.app_assoc; cbn [app];
    by destruct (Issues_CreateMilestone _ _ _ _).
Qed.

Lemma milestoneCalls_create (owner repo title : string) (ms : Milestone)
  (req : GhMilestone) (res : Result GhMilestone) :
  milestoneCalls (milestoneLogs title ms ++ [CallCreateMilestone owner repo req res]
                  ++ milestoneFailure title res) = [(req, res)].
Proof.
  unfold milestoneLogs, milestoneFailure.
  by destruct (milestoneRequest title ms).1, res.
Qed.

Lemma milestonesLoop_calls (owner repo : string) (order : list (string * Milestone))
  (mtn : gmap string Z) (h : list Event) :
  let run := forEach (createMilestone1 owner repo) mtn order h in
  (∀ req res, (req, res) ∈ milestoneCalls run.2 →
     ∃ title ms, (title, ms) ∈ order ∧ req = (milestoneRequest title ms).2
                 ∧ mtn !! title = None)
  ∧ run.1 = foldl recordMilestone mtn (createdMilestones run.2).
Proof.
  revert mtn h. induction order as [|[k ms0] order IH]; intros mtn h.
  - split; [|done]. intros req res Hin. by apply elem_of_nil in Hin.
  - cbv zeta. rewrite forEach_cons.
    destruct (mtn !! k) as [n0|] eqn:Hk.
    + rewrite (createMilestone1_skip _ _ _ _ _ _ _ Hk). cbn [fst snd app].
      destruct (IH mtn (h ++ [])) as [IHc IHm]. split; [|done].
      intros req res Hin. destruct (IHc req res Hin) as (t & m & Hin' & Hreq & Hn).
      exists t, m. split_and!; [by right|done..].
    + rewrite (createMilestone1_create _ _ _ _ _ _ Hk). cbv zeta. cbn [fst snd].
      set (req0 := (milestoneRequest k ms0).2).
      set (res0 := Issues_CreateMilestone _ _ _ _).
      set (mtn1 := match res0 with Ok c => recordMilestone mtn c | Err _ => mtn end).
      set (t1 := milestoneLogs k ms0 ++ _).
      destruct (IH mtn1 (h ++ t1)) as [IHc IHm].
      unfold createdMilestones in *.
      rewrite milestoneCalls_app. subst t1. rewrite milestoneCalls_create.
      split.
      * intros req res [Hhd|Hin]%elem_of_cons.
        -- injection Hhd as -> ->. exists k, ms0. split_and!; [by left|done..].
        -- destruct (IHc req res Hin) as (t & m & Hin' & Hreq & Hn).
           exists t, m. split_and!; [by right|done|].
           subst mtn1. destruct res0 as [c|e]; [|done].
           unfold recordMilestone in Hn. by apply lookup_insert_None in Hn as [? _].
      * rewrite IHm. subst mtn1. by destruct res0.
Qed.

Lemma milestonesLoop_lookup (owner repo : string) (order : list (string * Milestone))
  (mtn : gmap string Z) (h : list Event) :
  let run := forEach (createMilestone1 owner repo) mtn order h in
  titlesEchoed (milestoneCalls run.2) →
  Forall (λ entry, Milestone_Title entry.2 = entry.1) order →
  NoDup order.*1 →
  (∀ title n, mtn !! title = Some n → run.1 !! title = Some n) ∧
  (∀ title, mtn !! title = None → title ∉ order.*1 → run.1 !! title = None) ∧
  (∀ title ms, (title, ms) ∈ order → mtn !! title = None →
     (∃ res, ((milestoneRequest title ms).2, res) ∈ milestoneCalls run.2) ∧
     (∀ res, ((milestoneRequest title ms).2, res) ∈ milestoneCalls run.2 →
        run.1 !! title = milestoneOutcome res)).
Proof.
  revert mtn h. induction order as [|[k ms0] order IH]; intros mtn h.
  - intros run _ _ _. split_and!; [done..|].
    intros title ms Hin. by apply elem_of_nil in Hin.
  - cbv zeta. rewrite forEach_cons.
    intros Hecho Hkeyed Hnodup.
    apply Forall_cons in Hkeyed as [Hk0 Hkeyed]. cbn [fst snd] in Hk0.
    cbn [fmap list_fmap fst] in Hnodup. apply NoDup_cons in Hnodup as [Hfresh Hnodup].
    destruct (mtn !! k) as [n0|] eqn:Hk.
    + rewrite (createMilestone1_skip _ _ _ _ _ _ _ Hk) in *. cbn [fst snd app] in *.
      destruct (IH mtn (h ++ []) Hecho Hkeyed Hnodup) as (IH1 & IH2 & IH3).
      split_and!; [done| |].
      * intros title Hn Hnotin. apply IH2; [done|].
        intros Hin. apply Hnotin. by right.
      * intros title ms [Hhd|Hin]%elem_of_cons Hn; [|by apply IH3].
        injection Hhd as -> ->. congruence.
    + rewrite (createMilestone1_create _ _ _ _ _ _ Hk) in *.
      cbv zeta in *. cbn [fst snd] in *.
      set (req0 := (milestoneRequest k ms0).2) in *.
      set (res0 := Issues_CreateMilestone _ _ _ _) in *.
      set (mtn1 := match res0 with Ok c => recordMilestone mtn c | Err _ => mtn end) in *.
      set (t1 := milestoneLogs k ms0 ++ _) in *.
      assert (Ht1 : milestoneCalls t1 = [(req0, res0)])
        by (subst t1; apply milestoneCalls_create).
      rewrite milestoneCalls_app, Ht1 in *. cbn [app] in *.
      apply Forall_cons in Hecho as [Hecho0 Hecho]. cbn [fst snd] in Hecho0.
      destruct (IH mtn1 (h ++ t1) Hecho Hkeyed Hnodup) as (IH1 & IH2 & IH3).
      destruct (milestonesLoop_calls owner repo order mtn1 (h ++ t1)) as [Hcalls _].
      assert (Hmtn1 : ∀ title, title ≠ k → mtn1 !! title = mtn !! title).
      { intros title Hne. subst mtn1. destruct res0 as [c|e]; [|done].
        unfold recordMilestone. rewrite lookup_insert_ne; [done|].
        unfold gm_GetTitle. rewrite Hecho0. subst req0.
        rewrite (proj1 (milestoneRequest_title k ms0)). simpl. congruence. }
      assert (Hmtn1k : mtn1 !! k = milestoneOutcome res0).
      { subst mtn1. destruct res0 as [c|e]; [|done].
        unfold recordMilestone, gm_GetTitle. rewrite Hecho0. subst req0.
        rewrite (proj1 (milestoneRequest_title k ms0)). simpl.
        by rewrite Hk0, lookup_insert_eq. }
      assert (Hother : ∀ title ms res,
                (title, ms) ∈ order →
                ((milestoneRequest k ms0).2, res) ∈
                  milestoneCalls (forEach (createMilestone1 owner repo) mtn1 order
                                    (h ++ t1)).2 → False).
      { intros title ms res Hin Hcall.
        destruct (Hcalls _ _ Hcall) as (t' & m' & Hin' & Hreq & _).
        apply (f_equal gm_Title) in Hreq.
        rewrite (proj1 (milestoneRequest_title k ms0)) in Hreq.
        rewrite (proj1 (milestoneRequest_title t' m')) in Hreq.
        rewrite Forall_forall in Hkeyed. specialize (Hkeyed _ Hin'). cbn in Hkeyed.
        apply Hfresh. apply list_elem_of_fmap. exists (t', m'). split; [|done].
        cbn. congruence. }
      split_and!.
      * intros title n Hn. apply IH1. rewrite Hmtn1; [done|congruence].
      * intros title Hn Hnotin. apply IH2.
        -- rewrite Hmtn1; [done|]. intros ->. apply Hnotin. by left.
        -- intros Hin. apply Hnotin. by right.
      * intros title ms [Hhd|Hin]%elem_of_cons Hn.
        -- injection Hhd as -> ->. split; [exists res0; by left|].
           intros res [Hres|Hin]%elem_of_cons.
           ++ injection Hres as ->.
              destruct (milestoneOutcome res0) as [n|] eqn:Hout.
              ** by apply IH1.
              ** by apply IH2.
           ++ destruct order as [|[t' m'] order'];
                [by apply elem_of_nil in Hin|].
              destruct (Hcalls _ _ Hin) as (t'' & m'' & Hin'' & _).
              by destruct (Hother t'' m'' res Hin'' Hin).
        -- assert (Hne : title ≠ k).
           { intros ->. apply Hfresh. apply list_elem_of_fmap. by exists (k, ms). }
           destruct (IH3 title ms Hin) as [[res Hres] Hall];
             [by rewrite Hmtn1|].
           split; [exists res; by right|].
           intros res' [Hhd|Hin']%elem_of_cons; [|by apply Hall].
           injection Hhd as Hreq _. exfalso. apply Hne.
           apply (f_equal gm_Title) in Hreq. subst req0.
           rewrite (proj1 (milestoneRequest_title k ms0)) in Hreq.
           rewrite (proj1 (milestoneRequest_title title ms)) in Hreq.
           rewrite Forall_forall in Hkeyed. specialize (Hkeyed _ Hin). cbn in Hkeyed.
           congruence.
Qed.

Lemma foldl_insert_val_lookup {V W : Type} (key : V → string) (val : V → W)
  (l : list V) (acc : gmap string W) (k : string) :
  foldl (λ a v, <[key v := val v]> a) acc l !! k
  = match last_with (λ v, key v = k) l with
    | Some v => Some (val v)
    | None => acc !! k
    end.
Proof.
  unfold last_with. revert acc. induction l as [|v l IH]; intros acc; [done|].
  cbn [foldl]. rewrite IH, filter_cons.
  destruct (decide (key v = k)) as [Hk|Hk].
  - rewrite last_cons. destruct (last (filter _ l)); [done|].
    by rewrite Hk, lookup_insert_eq.
  - destruct (last (filter _ l)); [done|]. by rewrite lookup_insert_ne.
Qed.

Lemma seedMilestones_lookup (existing : list GhMilestone) (title : string) :
  seedMilestones existing !! title
  = gm_GetNumber <$> last_with (λ e, gm_GetTitle e = title) existing.
Proof.
  unfold seedMilestones. rewrite foldl_insert_val_lookup.
  by destruct (last_with _ existing).
Qed.

Lemma seedMilestones_None (existing : list GhMilestone) (title : string) :
  seedMilestones existing !! title = None ↔ title ∉ gm_GetTitle <$> existing.
Proof.
  rewrite seedMilestones_lookup, <- last_with_is_Some, fmap_None.
  by rewrite eq_None_not_Some.
Qed.

Lemma rangeOrder_elem {V : Type} (m : gmap string V) (k : string) (v : V) :
  (k, v) ∈ rangeOrder m ↔ m !! k = Some v.
Proof. by rewrite (rangeOrder_perm V m), elem_of_map_to_list. Qed.

Lemma rangeOrder_NoDup {V : Type} (m : gmap string V) : NoDup (rangeOrder m).*1.
Proof. rewrite (rangeOrder_perm V m). apply NoDup_fst_map_to_list. Qed.

Lemma rangeOrder_keyed (milestones : gmap string Milestone) :
  keyedByTitle milestones →
  Forall (λ entry, Milestone_Title entry.2 = entry.1) (rangeOrder milestones).
Proof.
  intros Hk. apply Forall_forall. intros [k v] Hin%rangeOrder_elem.
  by apply (Hk k v).
Qed.

Lemma createMilestones_failed (owner repo : string) (milestones : gmap string Milestone)
  (h : list Event) (e : string) :
  Issues_ListMilestones h owner repo {| mlo_State := "all" |} = Err e →
  createMilestones owner repo milestones h
  = (Err ("failed to fetch existing milestones: " +:+ e),
     [CallListMilestones owner repo {| mlo_State := "all" |} (Err e)]).
Proof. unfold createMilestones, bind, ListMilestones, ret. simpl. by intros ->. Qed.

Lemma createMilestones_fetched (owner repo : string) (milestones : gmap string Milestone)
  (h : list Event) (existing : list GhMilestone) :
  Issues_ListMilestones h owner repo {| mlo_State := "all" |} = Ok existing →
  let fetch := CallListMilestones owner repo {| mlo_State := "all" |} (Ok existing) in
  let loop := forEach (createMilestone1 owner repo) (seedMilestones existing)
                (rangeOrder milestones) (h ++ [fetch]) in
  createMilestones owner repo milestones h = (Ok loop.1, fetch :: loop.2).
Proof.
  unfold createMilestones, bind, ListMilestones, ret. simpl. intros ->.
  destruct (forEach _ _ _ _) as [m t]. simpl. by rewrite List.app_nil_r.
Qed.

Lemma collected_keyed (issues : list Issue) :
  keyedByTitle (foldl collectIssue (∅, ∅) issues).2.
Proof.
  intros title m. rewrite foldl_collectIssue. cbn [snd].
  rewrite foldl_insert_lookup, lookup_empty. unfold last_with.
  destruct (last _) as [m'|] eqn:Hl; [|done]. intros [= ->].
  apply last_Some_elem_of, list_elem_of_filter in Hl. by destruct Hl.
Qed.

End RunFacts.

(** ** Properties of the migrator *)

Section Properties.
Context `{Platform} `{!Client}.


(** C3. The comment calls of the replicator are, in the order of the
    source issues, one call for each issue that was created and has one
    or more comments, on the number of the new issue, with the
    consolidated body: the fixed header, then for each comment in order
    the attribution line with its author, the comment body and the
    separator. An issue without comments, or one that was not created,
    gets no comment call. *)
Theorem createIssueAndComment_consolidates_comments (owner repo : string)
  (issues : list Issue) (milestoneTitleToNum : gmap string Z) (h : list Event) :
  let run := createIssueAndComment owner repo issues milestoneTitleToNum h in
  length (createOutcomes run.2) = length issues ∧
  commentCalls run.2
  = mjoin ((λ ir, match ir.2, Issue_Comments ir.1 with
                  | Ok created, _ :: _ =>
                      [(gi_GetNumber created,
                        {| ic_Body :=
                             Some ("### Comments from original issue:" +:+ nl +:+ nl
                                   +:+ "---" +:+ nl +:+ nl
                                   +:+ concat_str (renderComment
                                                     <$> Issue_Comments ir.1)) |})]
                  | _, _ => []
                  end) <$> zip issues (createOutcomes run.2)).
Proof.
  intros run. subst run. unfold createIssueAndComment.
  destruct (createIssueAndComment_gen owner repo milestoneTitleToNum issues ∅ h)
    as (Hc & _ & Hk).
  split.
  - unfold createOutcomes. rewrite length_fmap.
    rewrite <- (length_fmap fst), Hc. by rewrite length_fmap.
  - rewrite Hk. apply (f_equal mjoin), list_fmap_ext.
    intros _ [issue r] _. cbn [fst snd].
    destruct r as [created|e]; [|done]. by destruct (Issue_Comments issue).
Qed.

(** C5. The collector returns one label per distinct label name of the
    issues, the last occurrence of that name in iteration order, and one
    milestone per distinct title, again the last occurrence; the sizes
    of the two sets are the numbers of distinct names and titles, and an
    empty list of issues gives two empty sets. *)
Theorem findLablesAndMilestones_collects (issues : list Issue) (h : list Event) :
  let found := (findLablesAndMilestones issues h).1 in
  (∀ name, found.1 !! name
           = last_with (λ l, Label_Name l = name) (issues ≫= Issue_Labels)) ∧
  (∀ title, found.2 !! title
            = last_with (λ m, Milestone_Title m = title) (omap Issue_Milestone issues)) ∧
  size found.1 = length (remove_dups (Label_Name <$> (issues ≫= Issue_Labels))) ∧
  size found.2 = length (remove_dups (Milestone_Title <$> omap Issue_Milestone issues)) ∧
  (findLablesAndMilestones [] h).1 = (∅, ∅).
Proof.
  intros found.
  assert (Hfound : found = foldl collectIssue (∅, ∅) issues) by done.
  rewrite foldl_collectIssue in Hfound. cbn [fst snd] in Hfound.
  assert (Hl : ∀ name, found.1 !! name
               = last_with (λ l, Label_Name l = name) (issues ≫= Issue_Labels)).
  { intros name. rewrite Hfound. cbn [fst]. rewrite foldl_insert_lookup, lookup_empty.
    by destruct (last_with _ _). }
  assert (Hm : ∀ title, found.2 !! title
               = last_with (λ m, Milestone_Title m = title)
                   (omap Issue_Milestone issues)).
  { intros title. rewrite Hfound. cbn [snd]. rewrite foldl_insert_lookup, lookup_empty.
    by destruct (last_with _ _). }
  split_and!; try done; by apply size_keyed.
Qed.

(** C6. The edit calls of the rewriter are, in the order of the source
    issues, one call for each issue that has a mapping entry and whose
    rewritten body differs from its body, on the new number and with
    the rewritten body; an issue whose rewritten body equals its body
    gets no edit call, and that is the case of every body without a
    reference. *)
Theorem updateIssueLinks_edits_changed_bodies (owner repo : string)
  (issues : list Issue) (oldToNew : gmap Z Z) (h : list Event) :
  editCalls (updateIssueLinks owner repo issues oldToNew h).2
  = issues ≫= (λ issue,
      match oldToNew !! Issue_Number issue with
      | Some newNumber =>
          if decide (updatedBodyOf oldToNew (Issue_Body issue) ≠ Issue_Body issue)
          then [(newNumber,
                 {| ir_Title := None;
                    ir_Body := Some (updatedBodyOf oldToNew (Issue_Body issue));
                    ir_Labels := None; ir_Milestone := None |})]
          else []
      | None => []
      end)
  ∧ ∀ issue h',
      no_link (Issue_Body issue) →
      updatedBodyOf oldToNew (Issue_Body issue) = Issue_Body issue ∧
      editCalls (updateIssue1 owner repo oldToNew tt issue h').2 = [].
Proof.
  split.
  2: { intros issue h' Hn.
       pose proof (updatedBodyOf_no_link oldToNew _ Hn) as Hsame.
       split; [done|]. rewrite updateIssue1_edits. unfold expectedEdit.
       destruct (oldToNew !! Issue_Number issue); [|done].
       by rewrite decide_True. }
  rewrite updateIssueLinks_edits. apply list_bind_ext; [|done].
  intros issue. unfold expectedEdit.
  destruct (oldToNew !! Issue_Number issue); [|done].
  destruct (decide (updatedBodyOf oldToNew (Issue_Body issue) = Issue_Body issue)).
  - by rewrite decide_False by (by intros ?).
  - by rewrite decide_True.
Qed.

(** C8. The creation requests of the replicator are, in the order of
    the source issues, one per issue: its title, its body as it is, the
    names of its labels in order, and the identifier that the map gives
    for the title of its milestone when it has a milestone and the map
    has that title, no milestone otherwise. *)
Theorem createIssueAndComment_requests (owner repo : string) (issues : list Issue)
  (milestoneTitleToNum : gmap string Z) (h : list Event) :
  (createCalls (createIssueAndComment owner repo issues milestoneTitleToNum h).2).*1
  = (λ issue,
       {| ir_Title := Some (Issue_Title issue);
          ir_Body := Some (Issue_Body issue);
          ir_Labels := Some (Label_Name <$> Issue_Labels issue);
          ir_Milestone :=
            Issue_Milestone issue ≫= λ m, milestoneTitleToNum !! Milestone_Title m |})
    <$> issues.
Proof.
  unfold createIssueAndComment.
  destruct (createIssueAndComment_gen owner repo milestoneTitleToNum issues ∅ h)
    as (Hc & _ & _).
  rewrite Hc. apply list_fmap_ext. intros _ issue _.
  unfold newIssueRequestOf. rewrite labelNamesOf_map. f_equal.
  destruct (Issue_Milestone issue) as [m|]; [|done]. simpl.
  by destruct (milestoneTitleToNum !! Milestone_Title m).
Qed.

Lemma foldl_recordCreated_None (attempts : list (Issue * Result GhIssue))
  (oldToNew : gmap Z Z) (N : Z) :
  oldToNew !! N = None →
  Forall (λ ir, Issue_Number ir.1 = N → is_ok ir.2 = false) attempts →
  foldl (λ m ir, recordCreated m ir.1 ir.2) oldToNew attempts !! N = None.
Proof.
  intros Hn Hall. revert oldToNew Hn.
  induction Hall as [|[issue r] attempts Hr _ IH]; intros oldToNew Hn; [done|].
  cbn [foldl fst snd] in *. apply IH. destruct r as [created|e]; [|done].
  cbn [recordCreated]. rewrite lookup_insert_ne; [done|].
  intros HN. by specialize (Hr HN).
Qed.

Lemma mjoin_fmap_filter {A B : Type} (f : A → list B) (P : A → Prop)
  `{∀ x, Decision (P x)} (l : list A) :
  Forall (λ x, ¬ P x → f x = []) l →
  mjoin (f <$> l) = mjoin (f <$> filter P l).
Proof.
  induction 1 as [|x l Hx _ IH]; [done|].
  rewrite filter_cons. destruct (decide (P x)) as [HP|HP].
  - change (f x ++ mjoin (f <$> l) = f x ++ mjoin (f <$> filter P l)). by rewrite IH.
  - change (f x ++ mjoin (f <$> l) = mjoin (f <$> filter P l)).
    by rewrite (Hx HP), IH.
Qed.

(** C2, as the code has it. The iteration for an issue whose creation
    fails logs the failure and does nothing else: the mapping stays as
    it was and no comment is posted. When every source issue that
    carries the number [N] fails to be created (with distinct numbers:
    when issue [N] fails), the returned mapping has no entry for [N],
    the comments posted by the run are those of the other issues, and
    the rewriter keeps every reference whose number is [N] as it is in
    every body. *)
Theorem failed_creation_keeps_references (owner repo : string) (issues : list Issue)
  (milestoneTitleToNum : gmap string Z) (h : list Event) (N : Z) :
  let run := createIssueAndComment owner repo issues milestoneTitleToNum h in
  let attempts := zip issues (createOutcomes run.2) in
  Forall (λ ir, Issue_Number ir.1 = N → is_ok ir.2 = false) attempts →
  (∀ oldToNew issue h' e,
     createAnswer owner repo milestoneTitleToNum issue h' = Err e →
     createIssue1 owner repo milestoneTitleToNum oldToNew issue h'
     = (oldToNew,
        [createLog issue;
         CallCreate owner repo (newIssueRequestOf milestoneTitleToNum issue) (Err e);
         Log ("Failed to create issue " +:+ dquote +:+ Issue_Title issue +:+ dquote
              +:+ ": " +:+ e)])) ∧
  run.1 !! N = None ∧
  commentCalls run.2
  = mjoin (commentFor <$> filter (λ ir, Issue_Number ir.1 ≠ N) attempts) ∧
  ∀ lead refs, no_link lead → Forall wf_ref refs →
    updatedBodyOf run.1 (lead +:+ assemble link refs)
    = lead +:+ assemble (λ ds, if decide ((Atoi ds).1 = N) then "#" +:+ ds
                               else newLink run.1 (Atoi ds).1 ds) refs.
Proof.
  intros run attempts Hfailed. subst run attempts.
  unfold createIssueAndComment in *.
  destruct (createIssueAndComment_gen owner repo milestoneTitleToNum issues ∅ h)
    as (_ & Hm & Hk).
  assert (HN : (forEach (createIssue1 owner repo milestoneTitleToNum) ∅ issues h).1
               !! N = None).
  { rewrite Hm. by apply foldl_recordCreated_None. }
  split_and!.
  - intros oldToNew issue h' e. apply createIssue1_failed.
  - done.
  - rewrite Hk. apply (mjoin_fmap_filter commentFor).
    eapply Forall_impl; [exact Hfailed|]. intros [issue r] Hr Hnot. cbn in *.
    unfold commentFor. cbn. destruct r as [created|e]; [|done].
    destruct (decide (Issue_Number issue = N)) as [Heq|Hne]; [|done].
    by specialize (Hr Heq).
  - intros lead refs Hlead Hrefs. rewrite updatedBodyOf_assemble by done.
    f_equal. apply assemble_ext, Forall_forall. intros [ds text] _. cbn [fst].
    destruct (decide ((Atoi ds).1 = N)) as [->|]; [|done].
    unfold newLink. by rewrite HN.
Qed.

(** C4. Milestone provisioning, once the existing milestones (of any
    state) are fetched, for a collected map keyed by title: it returns a
    map; no creation request carries the title of an existing
    milestone; the returned map is the map seeded from the existing
    milestones, each title with its identifier, extended with title and
    identifier of every milestone created, in order; and, the target
    answering each creation with the title asked for, every seeded entry
    is still there, and the title of each creation request has the new
    identifier when the request succeeded and no entry when it failed. *)
Theorem createMilestones_provisions (owner repo : string)
  (milestones : gmap string Milestone) (h : list Event)
  (existingMilestones : list GhMilestone) :
  Issues_ListMilestones h owner repo {| mlo_State := "all" |} = Ok existingMilestones →
  keyedByTitle milestones →
  let run := createMilestones owner repo milestones h in
  ∃ m, run.1 = Ok m ∧
    (∀ req res, (req, res) ∈ milestoneCalls run.2 →
       gm_GetTitle req ∉ gm_GetTitle <$> existingMilestones) ∧
    m = foldl recordMilestone (seedMilestones existingMilestones)
          (createdMilestones run.2) ∧
    (∀ title, seedMilestones existingMilestones !! title
              = gm_GetNumber <$> last_with (λ e, gm_GetTitle e = title)
                                   existingMilestones) ∧
    (titlesEchoed (milestoneCalls run.2) →
       (∀ title n, seedMilestones existingMilestones !! title = Some n →
                   m !! title = Some n) ∧
       (∀ req res, (req, res) ∈ milestoneCalls run.2 →
                   m !! gm_GetTitle req = milestoneOutcome res)).
Proof.
  intros Hfetch Hkeyed run. subst run.
  rewrite (createMilestones_fetched _ _ _ _ _ Hfetch). cbv zeta. cbn [fst snd].
  set (fetch := CallListMilestones _ _ _ _).
  set (loop := forEach _ _ _ _).
  destruct (milestonesLoop_calls owner repo (rangeOrder milestones)
              (seedMilestones existingMilestones) (h ++ [fetch])) as [Hcalls Hm].
  fold loop in Hcalls, Hm.
  assert (Hsame : milestoneCalls (fetch :: loop.2) = milestoneCalls loop.2) by done.
  unfold createdMilestones. rewrite Hsame.
  assert (Htitle : ∀ req res, (req, res) ∈ milestoneCalls loop.2 →
            ∃ ms, (gm_GetTitle req, ms) ∈ rangeOrder milestones
                  ∧ req = (milestoneRequest (gm_GetTitle req) ms).2
                  ∧ seedMilestones existingMilestones !! gm_GetTitle req = None).
  { intros req res Hin. destruct (Hcalls req res Hin) as (title & ms & Hin' & -> & Hn).
    pose proof (rangeOrder_keyed _ Hkeyed) as Hk. rewrite Forall_forall in Hk.
    specialize (Hk _ Hin'). cbn in Hk.
    assert (Ht : gm_GetTitle (milestoneRequest title ms).2 = title).
    { unfold gm_GetTitle. by rewrite (proj1 (milestoneRequest_title title ms)). }
    exists ms. rewrite Ht. unfold milestoneRequest at 1. done. }
  exists loop.1. split_and!; [done| |done|apply seedMilestones_lookup|].
  - intros req res Hin. destruct (Htitle req res Hin) as (ms & _ & _ & Hn).
    by apply seedMilestones_None.
  - intros Hecho.
    destruct (milestonesLoop_lookup owner repo (rangeOrder milestones)
                (seedMilestones existingMilestones) (h ++ [fetch]))
      as (H1 & _ & H3);
      [done|by apply rangeOrder_keyed|apply rangeOrder_NoDup|].
    fold loop in H1, H3. split; [done|].
    intros req res Hin. destruct (Htitle req res Hin) as (ms & Hin' & Hreq & Hn).
    destruct (H3 _ _ Hin' Hn) as [_ Hall]. apply Hall. by rewrite <- Hreq.
Qed.

(** C7. A collected milestone whose due date does not parse as RFC 3339:
    whenever its iteration finds its title missing from the map, it logs
    the warning and sends the creation request with title and
    description and without a due date; the phase returns its map, not
    an error; and, the target answering each creation with the title
    asked for, the run does send that request when the title is not among
    the existing milestones, as it sends the request of every other
    collected milestone that the target lacks. *)
Theorem createMilestones_drops_unparsable_due_date (owner repo : string)
  (milestones : gmap string Milestone) (h : list Event)
  (existingMilestones : list GhMilestone)
  (title : string) (ms : Milestone) (dueOn err : string) :
  Issues_ListMilestones h owner repo {| mlo_State := "all" |} = Ok existingMilestones →
  keyedByTitle milestones →
  milestones !! title = Some ms →
  Milestone_DueOn ms = Some dueOn →
  time_Parse RFC3339 dueOn = Err err →
  let run := createMilestones owner repo milestones h in
  let req := {| gm_Title := Some (Milestone_Title ms);
                gm_Description := Some (Milestone_Description ms);
                gm_DueOn := None; gm_Number := None |} in
  (∀ mtn h', mtn !! title = None →
     ∃ res,
       createMilestone1 owner repo mtn (title, ms) h'
       = (match res with Ok created => recordMilestone mtn created | Err _ => mtn end,
          [Log ("Creating milestone: " +:+ title);
           Log ("Warning: could not parse due date for milestone '" +:+ title
                +:+ "': " +:+ err +:+ ". Creating without due date.");
           CallCreateMilestone owner repo req res]
          ++ milestoneFailure title res)) ∧
  (∃ m, run.1 = Ok m) ∧
  (titlesEchoed (milestoneCalls run.2) →
   title ∉ gm_GetTitle <$> existingMilestones →
     (∃ res, (req, res) ∈ milestoneCalls run.2) ∧
     ∀ title' ms', milestones !! title' = Some ms' →
                   title' ∉ gm_GetTitle <$> existingMilestones →
                   ∃ res', ((milestoneRequest title' ms').2, res') ∈ milestoneCalls run.2).
Proof.
  intros Hfetch Hkeyed Hms Hdue Hparse run req. subst run.
  assert (Hreq : milestoneRequest title ms
                 = (Some ("Warning: could not parse due date for milestone '" +:+ title
                          +:+ "': " +:+ err +:+ ". Creating without due date."), req)).
  { unfold milestoneRequest. by rewrite Hdue, Hparse. }
  split_and!.
  - intros mtn h' Hn. rewrite (createMilestone1_create _ _ _ _ _ _ Hn).
    unfold milestoneLogs. rewrite Hreq. cbv zeta. cbn [fst snd app]. eauto.
  - rewrite (createMilestones_fetched _ _ _ _ _ Hfetch). cbv zeta. eauto.
  - rewrite (createMilestones_fetched _ _ _ _ _ Hfetch). cbv zeta. cbn [fst snd].
    set (fetch := CallListMilestones _ _ _ _).
    set (loop := forEach _ _ _ _).
    assert (Hsame : milestoneCalls (fetch :: loop.2) = milestoneCalls loop.2) by done.
    rewrite Hsame. intros Hecho Hnew.
    destruct (milestonesLoop_lookup owner repo (rangeOrder milestones)
                (seedMilestones existingMilestones) (h ++ [fetch]))
      as (_ & _ & H3);
      [done|by apply rangeOrder_keyed|apply rangeOrder_NoDup|].
    fold loop in H3. split.
    + destruct (H3 title ms) as [Hex _];
        [by apply rangeOrder_elem|by apply seedMilestones_None|].
      by rewrite Hreq in Hex.
    + intros title' ms' Hin' Hnew'.
      destruct (H3 title' ms') as [Hex _];
        [by apply rangeOrder_elem|by apply seedMilestones_None|done].
Qed.

(** C9. Label provisioning. When the existing labels are fetched, it
    returns no error whatever the answers to its creation requests: it
    sends one request for each collected label that the target lacks, in
    the order of the iteration, and each refused request is followed in
    the trace by its warning. When the fetch fails, it returns the error
    and does nothing else. [main] then logs that error and exits with
    status 1, with no further call to the target. *)
Theorem createLabels_single_failures_are_not_fatal (owner repo : string)
  (labels : gmap string Label) (h : list Event) :
  let run := createLabels owner repo labels h in
  match Issues_ListLabels h owner repo with
  | Ok existingLabels =>
      run.1 = None ∧
      (labelCalls run.2).*1
      = (λ entry, labelRequest entry.2)
          <$> filter (labelMissing existingLabels) (rangeOrder labels) ∧
      ∀ req e, (req, Some e) ∈ labelCalls run.2 →
        ∃ name label, labels !! name = Some label ∧ req = labelRequest label
                      ∧ labelWarning name e ∈ run.2
  | Err e =>
      run = (Some ("failed to fetch existing labels: " +:+ e),
             [CallListLabels owner repo (Err e)])
  end
  ∧ ∀ sourceIssues e,
      Issues_ListLabels (h ++ mainPreamble sourceIssues) owner repo = Err e →
      main owner repo sourceIssues h
      = (Exited 1,
         mainPreamble sourceIssues
         ++ [CallListLabels owner repo (Err e);
             Log ("failed to create labels: failed to fetch existing labels: "
                  +:+ e)]).
Proof.
  intros run. subst run. split.
  - destruct (Issues_ListLabels h owner repo) as [existingLabels|e] eqn:Hfetch.
    + rewrite (createLabels_fetched _ _ _ _ _ Hfetch). cbn [fst snd].
      destruct (labelsLoop_spec owner repo existingLabels (rangeOrder labels)
                  (h ++ [CallListLabels owner repo (Ok existingLabels)]))
        as [Hc Hw].
      split_and!; [done|done|].
      intros req e Hin. destruct (Hw req e Hin) as (name & label & Hnl & Hreq & Hlog).
      exists name, label. split_and!; [by apply rangeOrder_elem|done|by right].
    + by apply createLabels_failed.
  - intros sourceIssues e Hfetch.
    by rewrite (main_labels_failed owner repo sourceIssues h _ _
                  (createLabels_failed _ _ _ _ _ Hfetch)).
Qed.

(** C10. In the rewriter the error of [strconv.Atoi] is dropped. When
    the digits of every reference of a body denote a number within the
    range of [int], each parse, on the match without its hash sign,
    returns that number and no error, and the rewritten body is the one
    obtained by looking up the numbers the digits denote; the rewrite is
    a function defined on every body and every mapping. *)
Theorem updateIssueLinks_parse_succeeds_in_range (oldToNew : gmap Z Z)
  (lead : string) (refs : list (string * string)) :
  no_link lead → Forall wf_ref refs →
  Forall (λ r, digitsValue r.1 ≤ maxInt) refs →
  Forall (λ r, Atoi (TrimPrefix (link r.1) "#") = (digitsValue r.1, None)) refs ∧
  updatedBodyOf oldToNew (lead +:+ assemble link refs)
  = lead +:+ assemble (λ ds, match oldToNew !! digitsValue ds with
                             | Some newNum => "#" +:+ fmt_d newNum
                             | None => "#" +:+ ds
                             end) refs.
Proof.
  intros Hlead Hrefs Hfit.
  assert (Hparse : Forall (λ r, Atoi r.1 = (digitsValue r.1, None)) refs).
  { apply Forall_forall. intros [ds text] Hin. cbn [fst].
    rewrite Forall_forall in Hrefs, Hfit.
    destruct (Hrefs _ Hin) as (Hne & Hds & _). specialize (Hfit _ Hin).
    cbn [fst] in *. rewrite (Atoi_digits ds Hne Hds).
    destruct (Z.leb_spec (digitsValue ds) maxInt); [done|lia]. }
  split.
  - eapply Forall_impl; [exact Hparse|]. intros [ds text]. cbn [fst].
    by rewrite TrimPrefix_link.
  - rewrite updatedBodyOf_assemble by done. f_equal.
    apply assemble_ext. eapply Forall_impl; [exact Hparse|].
    intros [ds text] Hp. cbn [fst] in *. unfold newLink. by rewrite Hp.
Qed.

End Properties.

(** ** Further properties: the phases and their composition in main *)

Section PhaseFacts.
Context `{Platform} `{!Client}.

Lemma only_app (ks : list Kind) (t1 t2 : list Event) :
  only ks (t1 ++ t2) ↔ only ks t1 ∧ only ks t2.
Proof. apply Forall_app. Qed.

Lemma only_mono (ks ks' : list Kind) (t : list Event) :
  ks ⊆ ks' → only ks t → only ks' t.
Proof.
  intros Hsub Ht. eapply Forall_impl; [exact Ht|]. intros e He. by apply Hsub.
Qed.

Lemma forEach_only {A S : Type} (ks : list Kind) (body : S → A → M S) (s : S)
  (xs : list A) (h : list Event) :
  (∀ s x h, only ks (body s x h).2) → only ks (forEach body s xs h).2.
Proof.
  intros Hbody. revert s h. induction xs as [|x xs IH]; intros s h.
  - apply Forall_nil_2.
  - rewrite forEach_cons. cbn [snd]. apply only_app. split; [apply Hbody|apply IH].
Qed.

Ltac member := repeat first [apply list_elem_of_here | apply list_elem_of_further].
Ltac kinds :=
  cbn [app fst snd]; repeat (apply Forall_cons_2; [cbn; member|]); apply Forall_nil_2.
Ltac included :=
  let k := fresh "k" in
  let Hk := fresh "Hk" in
  intros k Hk; repeat (apply elem_of_cons in Hk as [->|Hk]);
  try (by apply elem_of_nil in Hk); member.

Lemma createLabel1_only (owner repo : string) (ex : gmap string bool)
  (entry : string * Label) (h : list Event) :
  only [KLog; KCreateLabel] (createLabel1 owner repo ex tt entry h).2.
Proof.
  destruct entry as [name label].
  destruct (default false (ex !! name)) eqn:Hex.
  - rewrite (createLabel1_skip _ _ _ _ _ _ Hex). kinds.
  - rewrite (createLabel1_create _ _ _ _ _ _ Hex). cbn [snd].
    destruct (Issues_CreateLabel _ _ _ _); unfold labelWarning; kinds.
Qed.

Lemma createMilestone1_only (owner repo : string) (mtn : gmap string Z)
  (entry : string * Milestone) (h : list Event) :
  only [KLog; KCreateMilestone] (createMilestone1 owner repo mtn entry h).2.
Proof.
  destruct entry as [title ms].
  destruct (mtn !! title) as [n|] eqn:Hn.
  - rewrite (createMilestone1_skip _ _ _ _ _ _ _ Hn). kinds.
  - rewrite (createMilestone1_create _ _ _ _ _ _ Hn). cbv zeta. cbn [snd].
    unfold milestoneLogs, milestoneFailure.
    destruct (milestoneRequest title ms).1, (Issues_CreateMilestone _ _ _ _); kinds.
Qed.

Lemma createIssue1_only (owner repo : string) (mtn : gmap string Z)
  (oldToNew : gmap Z Z) (issue : Issue) (h : list Event) :
  only [KLog; KCreate; KCreateComment] (createIssue1 owner repo mtn oldToNew issue h).2.
Proof.
  unfold createIssue1, bind, log_Printf, Create, ret. cbn [fst snd app].
  destruct (Issues_Create _ _ _ _) as [created|e]; cbn [fst snd app]; [|kinds].
  unfold postComments.
  destruct (0 <? length (Issue_Comments issue))%nat; [|kinds].
  destruct (0 <? String.length (combineComments (Issue_Comments issue)))%nat.
  - unfold bind, log_Printf, CreateComment. cbn [fst snd app].
    destruct (Issues_CreateComment _ _ _ _ _); kinds.
  - unfold bind, log_Printf, ret. kinds.
Qed.

Lemma updateIssue1_only (owner repo : string) (oldToNew : gmap Z Z) (u : unit)
  (issue : Issue) (h : list Event) :
  only [KLog; KEdit] (updateIssue1 owner repo oldToNew u issue h).2.
Proof.
  unfold updateIssue1. destruct (oldToNew !! Issue_Number issue); [|kinds].
  cbv zeta. destruct (negb _); [|kinds].
  unfold bind, log_Printf, Edit. cbn [fst snd app].
  destruct (Issues_Edit _ _ _ _ _); kinds.
Qed.

Lemma createLabels_only (owner repo : string) (labels : gmap string Label)
  (h : list Event) :
  only [KLog; KListLabels; KCreateLabel] (createLabels owner repo labels h).2.
Proof.
  destruct (Issues_ListLabels h owner repo) as [existing|e] eqn:Hfetch.
  - rewrite (createLabels_fetched _ _ _ _ _ Hfetch). cbn [snd].
    apply Forall_cons_2; [cbn; member|].
    apply (only_mono [KLog; KCreateLabel]); [included|].
    apply forEach_only. intros [] x h'. apply createLabel1_only.
  - rewrite (createLabels_failed _ _ _ _ _ Hfetch). kinds.
Qed.

Lemma createMilestones_only (owner repo : string) (milestones : gmap string Milestone)
  (h : list Event) :
  only [KLog; KListMilestones; KCreateMilestone]
    (createMilestones owner repo milestones h).2.
Proof.
  destruct (Issues_ListMilestones h owner repo {| mlo_State := "all" |})
    as [existing|e] eqn:Hfetch.
  - rewrite (createMilestones_fetched _ _ _ _ _ Hfetch). cbv zeta. cbn [snd].
    apply Forall_cons_2; [cbn; member|].
    apply (only_mono [KLog; KCreateMilestone]); [included|].
    apply forEach_only. intros m x h'. apply createMilestone1_only.
  - rewrite (createMilestones_failed _ _ _ _ _ Hfetch). kinds.
Qed.

Lemma createIssueAndComment_only (owner repo : string) (issues : list Issue)
  (mtn : gmap string Z) (h : list Event) :
  only [KLog; KCreate; KCreateComment] (createIssueAndComment owner repo issues mtn h).2.
Proof. apply forEach_only. intros m x h'. apply createIssue1_only. Qed.

Lemma updateIssueLinks_only (owner repo : string) (issues : list Issue)
  (oldToNew : gmap Z Z) (h : list Event) :
  only [KLog; KEdit] (updateIssueLinks owner repo issues oldToNew h).2.
Proof. apply forEach_only. intros u x h'. apply updateIssue1_only. Qed.

(** A projection of a trace is empty when the trace has no event of the
    kinds it selects. *)
Lemma omap_only_nil {B : Type} (f : Event → option B) (ks : list Kind)
  (t : list Event) :
  (∀ e, kindOf e ∈ ks → f e = None) → only ks t → omap f t = [].
Proof.
  intros Hf. induction 1 as [|e t He _ IH]; [done|].
  cbn. by rewrite (Hf e He), IH.
Qed.

Ltac no_kind := intros [] Hk; cbn in Hk; try done; contradiction.

Lemma createCalls_only (ks : list Kind) (t : list Event) :
  KCreate ∉ ks → only ks t → createCalls t = [].
Proof. intros Hn. apply omap_only_nil. no_kind. Qed.

Lemma commentCalls_only (ks : list Kind) (t : list Event) :
  KCreateComment ∉ ks → only ks t → commentCalls t = [].
Proof. intros Hn. apply omap_only_nil. no_kind. Qed.

Lemma editCalls_only (ks : list Kind) (t : list Event) :
  KEdit ∉ ks → only ks t → editCalls t = [].
Proof. intros Hn. apply omap_only_nil. no_kind. Qed.

Lemma milestoneCalls_only (ks : list Kind) (t : list Event) :
  KCreateMilestone ∉ ks → only ks t → milestoneCalls t = [].
Proof. intros Hn. apply omap_only_nil. no_kind. Qed.

Lemma labelCalls_only (ks : list Kind) (t : list Event) :
  KCreateLabel ∉ ks → only ks t → labelCalls t = [].
Proof. intros Hn. apply omap_only_nil. no_kind. Qed.

Lemma fetchErrors_only (ks : list Kind) (t : list Event) :
  KListLabels ∉ ks → KListMilestones ∉ ks → only ks t → fetchErrors t = [].
Proof.
  intros Hl Hm. apply omap_only_nil.
  intros [] Hk; cbn in Hk; try done; contradiction.
Qed.

(** Brings the histories that the phases read to the right-nested form. *)
Ltac normal hist :=
  let hist' := fresh "hist" in
  let Hhist := fresh "Hhist" in
  remember hist as hist' eqn:Hhist in |- *;
  rewrite <- ?List.app_assoc in Hhist; cbn [app] in Hhist;
  subst hist'.

Ltac normal_history :=
  repeat match goal with
  | |- context [createLabels _ _ _ ?hist] => progress normal hist
  | |- context [createMilestones _ _ _ ?hist] => progress normal hist
  | |- context [createIssueAndComment _ _ _ _ ?hist] => progress normal hist
  | |- context [updateIssueLinks _ _ _ _ ?hist] => progress normal hist
  end.

(** [main] as the composition of its phases: each phase runs on the
    history that the earlier ones left. *)
Lemma main_phases (owner repo : string) (sourceIssues : list Issue) (h : list Event) :
  let found := foldl collectIssue (∅, ∅) sourceIssues in
  let pre := mainPreamble sourceIssues in
  let labelsRun := createLabels owner repo found.1 (h ++ pre) in
  let milestonesRun := createMilestones owner repo found.2 (h ++ pre ++ labelsRun.2) in
  let phase3 := Log ("Phase 3: Creating issues and comments" +:+ nl) in
  let phase4 := Log ("Phase 4: Updating issue bodies with new links" +:+ nl) in
  main owner repo sourceIssues h
  = match labelsRun.1 with
    | Some e => (Exited 1, pre ++ labelsRun.2 ++ [Log ("failed to create labels: " +:+ e)])
    | None =>
        match milestonesRun.1 with
        | Err e =>
            (Exited 1,
             pre ++ labelsRun.2 ++ milestonesRun.2
             ++ [Log ("failed to create milestones: " +:+ e)])
        | Ok milestoneTitleToNumber =>
            let h3 := h ++ pre ++ labelsRun.2 ++ milestonesRun.2 ++ [phase3] in
            let issuesRun :=
              createIssueAndComment owner repo sourceIssues milestoneTitleToNumber h3 in
            let linksRun :=
              updateIssueLinks owner repo sourceIssues issuesRun.1
                (h3 ++ issuesRun.2 ++ [phase4]) in
            (Returned,
             pre ++ labelsRun.2 ++ milestonesRun.2 ++ [phase3] ++ issuesRun.2
             ++ [phase4] ++ linksRun.2
             ++ [Log ((nl +:+ " All issues created and linked successfully! ---")
                      +:+ nl)])
        end
    end.
Proof.
  cbv zeta.
  unfold main, findLablesAndMilestones, bind, log_Println, log_Printf, ret,
    log_Fatalf, mainPreamble.
  cbn [fst snd app].
  normal_history.
  destruct (createLabels _ _ _ _) as [[e|] t1]; cbn [fst snd]; [done|].
  normal_history.
  destruct (createMilestones _ _ _ _) as [[mtn|e] t2]; cbn [fst snd].
  - normal_history.
    destruct (createIssueAndComment _ _ _ _ _) as [m t3]; cbn [fst snd].
    normal_history.
    by destruct (updateIssueLinks _ _ _ _ _) as [[] t4].
  - done.
Qed.

End PhaseFacts.

(** ** Further properties: the whole run, provisioning, the mapping, the rewriter *)

Section Composition.
Context `{Platform} `{!Client}.

Ltac member := repeat first [apply list_elem_of_here | apply list_elem_of_further].
Ltac no_kind := intros [] Hk; cbn in Hk; try done; contradiction.
Ltac absent := let Hin := fresh in intros Hin; repeat (apply elem_of_cons in Hin as [Hin|Hin]; [discriminate Hin|]); by apply elem_of_nil in Hin.

Ltac gone lem Hx :=
  match type of Hx with only ?ks ?t => rewrite (lem ks t ltac:(absent) Hx) end.

Ltac gone2 lem Hx :=
  match type of Hx with
  | only ?ks ?t => rewrite (lem ks t ltac:(absent) ltac:(absent) Hx)
  end.

Lemma fetchErrors_app (t1 t2 : list Event) :
  fetchErrors (t1 ++ t2) = fetchErrors t1 ++ fetchErrors t2.
Proof. apply omap_app. Qed.

Lemma fetchedMilestones_app (t1 t2 : list Event) :
  fetchedMilestones (t1 ++ t2) = fetchedMilestones t1 ++ fetchedMilestones t2.
Proof. unfold fetchedMilestones. by rewrite omap_app, join_app. Qed.

Lemma fetchedMilestones_only (ks : list Kind) (t : list Event) :
  KListMilestones ∉ ks → only ks t → fetchedMilestones t = [].
Proof.
  intros Hn Ht. unfold fetchedMilestones.
  rewrite (omap_only_nil _ ks); [done| |done]. no_kind.
Qed.

(** The trace of [main], by the answers to the two list calls. *)
Lemma main_cases (owner repo : string) (sourceIssues : list Issue) (h : list Event) :
  let found := foldl collectIssue (∅, ∅) sourceIssues in
  let pre := mainPreamble sourceIssues in
  let run := main owner repo sourceIssues h in
  (∃ e, run = (Exited 1,
                pre ++ [CallListLabels owner repo (Err e);
                        Log ("failed to create labels: failed to fetch existing labels: "
                             +:+ e)]))
  ∨ (∃ existingLabels t1 e,
       only [KLog; KCreateLabel] t1 ∧
       run = (Exited 1,
              pre ++ (CallListLabels owner repo (Ok existingLabels) :: t1)
              ++ [CallListMilestones owner repo {| mlo_State := "all" |} (Err e);
                  Log ("failed to create milestones: failed to fetch existing milestones: "
                       +:+ e)]))
  ∨ (∃ existingLabels t1 existingMilestones t2 t3 t4 hm h3 h4,
       only [KLog; KCreateLabel] t1 ∧
       t2 = (forEach (createMilestone1 owner repo) (seedMilestones existingMilestones)
               (rangeOrder found.2) hm).2 ∧
       (let mtn := foldl recordMilestone (seedMilestones existingMilestones)
                     (createdMilestones t2) in
        t3 = (createIssueAndComment owner repo sourceIssues mtn h3).2 ∧
        t4 = (updateIssueLinks owner repo sourceIssues
                (mappingOf (zip sourceIssues (createOutcomes t3))) h4).2) ∧
       run = (Returned,
              pre ++ (CallListLabels owner repo (Ok existingLabels) :: t1)
              ++ (CallListMilestones owner repo {| mlo_State := "all" |}
                    (Ok existingMilestones) :: t2)
              ++ [Log ("Phase 3: Creating issues and comments" +:+ nl)] ++ t3
              ++ [Log ("Phase 4: Updating issue bodies with new links" +:+ nl)] ++ t4
              ++ [Log ((nl +:+ " All issues created and linked successfully! ---")
                       +:+ nl)])).
Proof.
  cbv zeta. rewrite main_phases. cbv zeta.
  set (pre := mainPreamble sourceIssues).
  set (found := foldl collectIssue (∅, ∅) sourceIssues).
  destruct (Issues_ListLabels (h ++ pre) owner repo) as [existingLabels|e] eqn:Hl.
  2:{ left. exists e. rewrite (createLabels_failed _ _ _ _ _ Hl). cbn [fst snd].
      reflexivity. }
  right. rewrite (createLabels_fetched _ _ _ _ _ Hl). cbn [fst snd].
  set (t1 := (forEach _ _ _ _).2).
  assert (Ht1 : only [KLog; KCreateLabel] t1).
  { apply forEach_only. intros [] x h'. apply createLabel1_only. }
  set (h2 := h ++ pre ++ _).
  destruct (Issues_ListMilestones h2 owner repo {| mlo_State := "all" |})
    as [existingMilestones|e] eqn:Hm.
  2:{ left. exists existingLabels, t1, e. split; [done|].
      rewrite (createMilestones_failed _ _ _ _ _ Hm). cbn [fst snd].
      reflexivity. }
  right. rewrite (createMilestones_fetched _ _ _ _ _ Hm). cbv zeta. cbn [fst snd].
  set (hm := h2 ++ _). set (h3 := h ++ _).
  set (loop := forEach (createMilestone1 owner repo) _ _ hm).
  set (issuesRun := createIssueAndComment _ _ _ _ h3).
  set (h4 := h3 ++ _).
  exists existingLabels, t1, existingMilestones, loop.2, issuesRun.2,
    (updateIssueLinks owner repo sourceIssues issuesRun.1 h4).2, hm, h3, h4.
  split_and!; [done|done| | |done].
  - subst issuesRun. f_equal. f_equal. apply milestonesLoop_calls.
  - unfold mappingOf. f_equal. f_equal.
    apply (createIssueAndComment_gen owner repo loop.1 sourceIssues ∅ h3).
Qed.

Lemma mainPreamble_only (sourceIssues : list Issue) :
  only [KLog] (mainPreamble sourceIssues).
Proof. unfold mainPreamble. repeat (apply Forall_cons_2; [cbn; member|]). apply Forall_nil_2. Qed.

(** What the projections see of a complete trace. *)
Lemma returned_projections (pre t1 t2 t3 t4 : list Event) (owner repo : string)
  (existingLabels : list GhLabel) (existingMilestones : list GhMilestone)
  (l3 l4 l5 : string) :
  only [KLog] pre → only [KLog; KCreateLabel] t1 → only [KLog; KCreateMilestone] t2 →
  only [KLog; KCreate; KCreateComment] t3 → only [KLog; KEdit] t4 →
  let t := pre ++ (CallListLabels owner repo (Ok existingLabels) :: t1)
           ++ (CallListMilestones owner repo {| mlo_State := "all" |}
                 (Ok existingMilestones) :: t2)
           ++ [Log l3] ++ t3 ++ [Log l4] ++ t4 ++ [Log l5] in
  labelCalls t = labelCalls t1 ∧ milestoneCalls t = milestoneCalls t2 ∧
  createCalls t = createCalls t3 ∧ commentCalls t = commentCalls t3 ∧
  editCalls t = editCalls t4 ∧ fetchedMilestones t = existingMilestones ∧
  fetchErrors t = [].
Proof.
  intros Hpre H1 H2 H3 H4 t. subst t.
  change (?x :: t1) with ([x] ++ t1). change (?x :: t2) with ([x] ++ t2).
  split_and!.
  - rewrite !labelCalls_app.
    gone labelCalls_only Hpre. gone labelCalls_only H2. gone labelCalls_only H3.
    gone labelCalls_only H4. cbn. by rewrite List.app_nil_r.
  - rewrite !milestoneCalls_app.
    gone milestoneCalls_only Hpre. gone milestoneCalls_only H1.
    gone milestoneCalls_only H3. gone milestoneCalls_only H4.
    cbn. by rewrite List.app_nil_r.
  - rewrite !createCalls_app.
    gone createCalls_only Hpre. gone createCalls_only H1. gone createCalls_only H2.
    gone createCalls_only H4. cbn. by rewrite List.app_nil_r.
  - rewrite !commentCalls_app.
    gone commentCalls_only Hpre. gone commentCalls_only H1. gone commentCalls_only H2.
    gone commentCalls_only H4. cbn. by rewrite List.app_nil_r.
  - rewrite !editCalls_app.
    gone editCalls_only Hpre. gone editCalls_only H1. gone editCalls_only H2.
    gone editCalls_only H3. cbn. by rewrite List.app_nil_r.
  - rewrite !fetchedMilestones_app.
    gone fetchedMilestones_only Hpre. gone fetchedMilestones_only H1.
    gone fetchedMilestones_only H2. gone fetchedMilestones_only H3.
    gone fetchedMilestones_only H4. cbn. by rewrite !List.app_nil_r.
  - rewrite !fetchErrors_app.
    gone2 fetchErrors_only Hpre. gone2 fetchErrors_only H1. gone2 fetchErrors_only H2.
    gone2 fetchErrors_only H3. by gone2 fetchErrors_only H4.
Qed.

(** X1. [main] ends in one of two ways. It returns, and then neither
    list call failed; or it exits with status 1, and then exactly one
    list call failed and no milestone or issue was created, no comment
    posted and no body edited. A refused creation, comment or edit never
    ends the run. *)
Theorem main_exits_exactly_on_failed_listing (owner repo : string)
  (sourceIssues : list Issue) (h : list Event) :
  let run := main owner repo sourceIssues h in
  match run.1 with
  | Returned => fetchErrors run.2 = []
  | Exited code =>
      code = 1 ∧ (∃ e, fetchErrors run.2 = [e]) ∧
      milestoneCalls run.2 = [] ∧ createCalls run.2 = [] ∧
      commentCalls run.2 = [] ∧ editCalls run.2 = []
  end.
Proof.
  cbv zeta. pose proof (mainPreamble_only sourceIssues) as Hpre.
  destruct (main_cases owner repo sourceIssues h)
    as [(e & ->)|[(ex & t1 & e & H1 & ->)
                 |(ex & t1 & exm & t2 & t3 & t4 & hm & h3 & h4
                   & H1 & -> & [-> ->] & ->)]];
    cbn [fst snd].
  - split; [done|]. split; [exists e|split_and!].
    + rewrite fetchErrors_app. by gone2 fetchErrors_only Hpre.
    + rewrite milestoneCalls_app. by gone milestoneCalls_only Hpre.
    + rewrite createCalls_app. by gone createCalls_only Hpre.
    + rewrite commentCalls_app. by gone commentCalls_only Hpre.
    + rewrite editCalls_app. by gone editCalls_only Hpre.
  - change (?x :: t1) with ([x] ++ t1).
    split; [done|]. split; [exists e|split_and!].
    + rewrite !fetchErrors_app. gone2 fetchErrors_only Hpre.
      by gone2 fetchErrors_only H1.
    + rewrite !milestoneCalls_app. gone milestoneCalls_only Hpre.
      by gone milestoneCalls_only H1.
    + rewrite !createCalls_app. gone createCalls_only Hpre.
      by gone createCalls_only H1.
    + rewrite !commentCalls_app. gone commentCalls_only Hpre.
      by gone commentCalls_only H1.
    + rewrite !editCalls_app. gone editCalls_only Hpre.
      by gone editCalls_only H1.
  - eapply returned_projections; [done|done| | |].
    + apply forEach_only. intros m x h'. apply createMilestone1_only.
    + apply createIssueAndComment_only.
    + apply updateIssueLinks_only.
Qed.

(** X2. The trace of [main] falls into four consecutive parts: the
    first holds log lines and label calls only, the second log lines and
    milestone calls, the third log lines, issue creations and comments,
    the fourth log lines and edits. So no issue is created before the
    labels and milestones are provisioned, and no body is edited before
    the last issue is created. *)
Theorem main_runs_phases_in_order (owner repo : string) (sourceIssues : list Issue)
  (h : list Event) :
  ∃ t1 t2 t3 t4,
    (main owner repo sourceIssues h).2 = t1 ++ t2 ++ t3 ++ t4 ∧
    only [KLog; KListLabels; KCreateLabel] t1 ∧
    only [KLog; KListMilestones; KCreateMilestone] t2 ∧
    only [KLog; KCreate; KCreateComment] t3 ∧
    only [KLog; KEdit] t4.
Proof.
  rewrite main_phases. cbv zeta.
  pose proof (mainPreamble_only sourceIssues) as Hpre.
  apply (only_mono _ [KLog; KListLabels; KCreateLabel]) in Hpre;
    [|intros k Hk; apply list_elem_of_singleton in Hk as ->; member].
  set (pre := mainPreamble sourceIssues) in *.
  set (found := foldl collectIssue (∅, ∅) sourceIssues).
  pose proof (createLabels_only owner repo found.1 (h ++ pre)) as H1.
  destruct (createLabels owner repo found.1 (h ++ pre)) as [[e|] t1]; cbn [fst snd] in *.
  { exists (pre ++ t1 ++ [Log ("failed to create labels: " +:+ e)]), [], [], [].
    rewrite !List.app_nil_r. split_and!; [done| |apply Forall_nil_2..].
    apply only_app. split; [done|]. apply only_app. split; [done|].
    apply Forall_cons_2; [cbn; member|apply Forall_nil_2]. }
  pose proof (createMilestones_only owner repo found.2 (h ++ pre ++ t1)) as H2.
  destruct (createMilestones owner repo found.2 (h ++ pre ++ t1)) as [[mtn|e] t2];
    cbn [fst snd] in *.
  2:{ exists (pre ++ t1), (t2 ++ [Log ("failed to create milestones: " +:+ e)]), [], [].
      rewrite !List.app_nil_r, <- !List.app_assoc.
      split_and!; [done|by apply only_app| |apply Forall_nil_2..].
      apply only_app. split; [done|].
      apply Forall_cons_2; [cbn; member|apply Forall_nil_2]. }
  cbv zeta.
  set (h3 := h ++ _).
  pose proof (createIssueAndComment_only owner repo sourceIssues mtn h3) as H3.
  set (issuesRun := createIssueAndComment owner repo sourceIssues mtn h3) in *.
  set (h4 := h3 ++ _).
  pose proof (updateIssueLinks_only owner repo sourceIssues issuesRun.1 h4) as H4.
  set (t4 := (updateIssueLinks owner repo sourceIssues issuesRun.1 h4).2) in *.
  exists (pre ++ t1), t2,
    ([Log ("Phase 3: Creating issues and comments" +:+ nl)] ++ issuesRun.2),
    ([Log ("Phase 4: Updating issue bodies with new links" +:+ nl)] ++ t4
     ++ [Log ((nl +:+ " All issues created and linked successfully! ---") +:+ nl)]).
  rewrite <- !List.app_assoc.
  split_and!; [done|by apply only_app|done| |].
  - apply Forall_cons_2; [cbn; member|done].
  - apply Forall_cons_2; [cbn; member|]. apply only_app. split; [done|].
    apply Forall_cons_2; [cbn; member|apply Forall_nil_2].
Qed.

(** X3. On a run that returns, [main] hands the results of each phase
    to the next: the creation requests carry the milestone numbers of
    the map built from the milestones that the target listed and those
    the run created; the comments follow the outcomes of the creation
    requests; the edits are those of the mapping that these outcomes
    leave. *)
Theorem main_connects_phases (owner repo : string) (sourceIssues : list Issue)
  (h : list Event) :
  let run := main owner repo sourceIssues h in
  let milestoneTitleToNumber :=
    foldl recordMilestone (seedMilestones (fetchedMilestones run.2))
      (createdMilestones run.2) in
  let attempts := zip sourceIssues (createOutcomes run.2) in
  run.1 = Returned →
  (createCalls run.2).*1 = newIssueRequestOf milestoneTitleToNumber <$> sourceIssues ∧
  commentCalls run.2 = mjoin (commentFor <$> attempts) ∧
  editCalls run.2 = sourceIssues ≫= expectedEdit (mappingOf attempts).
Proof.
  cbv zeta. pose proof (mainPreamble_only sourceIssues) as Hpre.
  destruct (main_cases owner repo sourceIssues h)
    as [(e & ->)|[(ex & t1 & e & H1 & ->)
                 |(ex & t1 & exm & t2 & t3 & t4 & hm & h3 & h4
                   & H1 & Ht2 & [Ht3 Ht4] & ->)]];
    cbn [fst snd]; [done|done|intros _].
  assert (H2 : only [KLog; KCreateMilestone] t2).
  { subst t2. apply forEach_only. intros m x h'. apply createMilestone1_only. }
  assert (H3 : only [KLog; KCreate; KCreateComment] t3)
    by (subst t3; apply createIssueAndComment_only).
  assert (H4 : only [KLog; KEdit] t4) by (subst t4; apply updateIssueLinks_only).
  destruct (returned_projections _ _ _ _ _ owner repo ex exm
              ("Phase 3: Creating issues and comments" +:+ nl)
              ("Phase 4: Updating issue bodies with new links" +:+ nl)
              ((nl +:+ " All issues created and linked successfully! ---") +:+ nl)
              Hpre H1 H2 H3 H4)
    as (_ & Hmc & Hcc & Hco & Hed & Hfm & _).
  unfold createdMilestones, createOutcomes. rewrite Hmc, Hcc, Hco, Hed, Hfm.
  fold (createdMilestones t2). fold (createOutcomes t3).
  set (mtn := foldl recordMilestone (seedMilestones exm) (createdMilestones t2)) in *.
  destruct (createIssueAndComment_gen owner repo mtn sourceIssues ∅ h3)
    as (Hreq & _ & Hcomments).
  fold (createIssueAndComment owner repo sourceIssues mtn) in Hreq, Hcomments.
  rewrite <- Ht3 in Hreq, Hcomments.
  split_and!; [done|exact Hcomments|].
  rewrite Ht4. apply updateIssueLinks_edits.
Qed.

(** X4. When the labels are provisioned and the list of the existing
    milestones cannot be fetched, [main] logs the error and exits with
    status 1 right after the failed call; the label calls made before
    stay in the trace. *)
Theorem main_stops_when_milestones_cannot_be_listed (owner repo : string)
  (sourceIssues : list Issue) (h : list Event) (e : string) :
  let pre := mainPreamble sourceIssues in
  let found := foldl collectIssue (∅, ∅) sourceIssues in
  let labelsRun := createLabels owner repo found.1 (h ++ pre) in
  labelsRun.1 = None →
  Issues_ListMilestones (h ++ pre ++ labelsRun.2) owner repo {| mlo_State := "all" |}
  = Err e →
  main owner repo sourceIssues h
  = (Exited 1,
     pre ++ labelsRun.2
     ++ [CallListMilestones owner repo {| mlo_State := "all" |} (Err e);
         Log ("failed to create milestones: failed to fetch existing milestones: "
              +:+ e)]).
Proof.
  cbv zeta. intros Hl Hm. rewrite main_phases. cbv zeta. rewrite Hl.
  by rewrite (createMilestones_failed _ _ _ _ _ Hm).
Qed.

End Composition.

Section Provisioning.
Context `{Platform} `{!Client}.

Lemma last_with_app {A : Type} (P : A → Prop) `{∀ x, Decision (P x)} (l1 l2 : list A) :
  last_with P (l1 ++ l2)
  = match last_with P l2 with Some x => Some x | None => last_with P l1 end.
Proof. unfold last_with. by rewrite filter_app, last_app. Qed.

Lemma last_with_Some {A : Type} (P : A → Prop) `{∀ x, Decision (P x)} (l : list A)
  (x : A) :
  last_with P l = Some x → P x ∧ x ∈ l.
Proof. intros Hl%last_Some_elem_of. by apply list_elem_of_filter in Hl. Qed.

Lemma foldl_insert_app_union {V : Type} (key : V → string) (l1 l2 : list V) :
  foldl (λ a v, <[key v := v]> a) (∅ : gmap string V) (l1 ++ l2)
  = foldl (λ a v, <[key v := v]> a) ∅ l2 ∪ foldl (λ a v, <[key v := v]> a) ∅ l1.
Proof.
  apply map_eq. intros k.
  rewrite lookup_union, !foldl_insert_lookup, last_with_app, !lookup_empty.
  by destruct (last_with _ l2), (last_with _ l1).
Qed.

Lemma collected_keyedByName (issues : list Issue) :
  keyedByName (foldl collectIssue (∅, ∅) issues).1.
Proof.
  rewrite foldl_collectIssue. cbn [fst].
  intros name label. rewrite foldl_insert_lookup, lookup_empty.
  destruct (last_with _ _) as [l|] eqn:Hl; [|done].
  intros [= ->]. by apply last_with_Some in Hl as [? _].
Qed.

(** X5. Collecting over two snapshots laid end to end gives the union
    of the two collections, an entry of the second one replacing the
    entry of the first one under the same name or title. *)
Theorem findLablesAndMilestones_app (issues1 issues2 : list Issue)
  (h h1 h2 : list Event) :
  let found := (findLablesAndMilestones (issues1 ++ issues2) h).1 in
  let found1 := (findLablesAndMilestones issues1 h1).1 in
  let found2 := (findLablesAndMilestones issues2 h2).1 in
  found.1 = found2.1 ∪ found1.1 ∧ found.2 = found2.2 ∪ found1.2.
Proof.
  cbv zeta. unfold findLablesAndMilestones, bind, log_Printf, ret. cbn [fst snd].
  rewrite !foldl_collectIssue. cbn [fst snd].
  rewrite bind_app, omap_app. split; apply foldl_insert_app_union.
Qed.

(** X6. The collector stores every label under its own name and every
    milestone under its own title, takes each of them from an issue of
    the snapshot, and does nothing but log one line. *)
Theorem findLablesAndMilestones_keys (issues : list Issue) (h : list Event) :
  let run := findLablesAndMilestones issues h in
  keyedByName run.1.1 ∧ keyedByTitle run.1.2 ∧
  (∀ name label, run.1.1 !! name = Some label →
     ∃ issue, issue ∈ issues ∧ label ∈ Issue_Labels issue) ∧
  (∀ title milestone, run.1.2 !! title = Some milestone →
     ∃ issue, issue ∈ issues ∧ Issue_Milestone issue = Some milestone) ∧
  ∃ line, run.2 = [Log line].
Proof.
  cbv zeta. unfold findLablesAndMilestones, bind, log_Printf, ret. cbn [fst snd app].
  split_and!.
  - apply (collected_keyedByName issues).
  - apply (collected_keyed issues).
  - rewrite !foldl_collectIssue. cbn [fst snd].
    intros name label. rewrite foldl_insert_lookup, lookup_empty.
    destruct (last_with _ _) as [l|] eqn:Hl; [|done].
    intros [= ->]. apply last_with_Some in Hl as [_ Hin].
    apply list_elem_of_bind in Hin as (issue & ? & ?). by exists issue.
  - rewrite !foldl_collectIssue. cbn [fst snd].
    intros title ms. rewrite foldl_insert_lookup, lookup_empty.
    destruct (last_with _ _) as [m|] eqn:Hl; [|done].
    intros [= ->]. apply last_with_Some in Hl as [_ Hin].
    apply list_elem_of_omap in Hin as (issue & ? & ?). by exists issue.
  - by eexists.
Qed.

Lemma existingNames_lookup (existingLabels : list GhLabel) (name : string) :
  default false (existingNames existingLabels !! name) = true
  ↔ name ∈ gl_GetName <$> existingLabels.
Proof.
  unfold existingNames.
  rewrite (foldl_insert_val_lookup gl_GetName (λ _, true)), lookup_empty.
  rewrite <- last_with_is_Some.
  destruct (last_with _ _); cbn; split; try done; by intros [].
Qed.

Lemma labelMissing_spec (existingLabels : list GhLabel) (entry : string * Label) :
  labelMissing existingLabels entry ↔ entry.1 ∉ gl_GetName <$> existingLabels.
Proof.
  unfold labelMissing. rewrite <- existingNames_lookup.
  by destruct (default false _).
Qed.

Lemma rangeOrder_keyedByName (labels : gmap string Label) :
  keyedByName labels →
  Forall (λ entry, Label_Name entry.2 = entry.1) (rangeOrder labels).
Proof.
  intros Hk. apply Forall_forall. intros [name l] Hin.
  apply rangeOrder_elem in Hin. by apply Hk in Hin.
Qed.

Lemma labelsLoop_nothing (owner repo : string) (ex : gmap string bool)
  (order : list (string * Label)) (h : list Event) :
  Forall (λ entry, default false (ex !! entry.1) = true) order →
  forEach (createLabel1 owner repo ex) tt order h = (tt, []).
Proof.
  intros Hall. revert h. induction Hall as [|[name l] order Hx _ IH]; intros h; [done|].
  rewrite forEach_cons, (createLabel1_skip _ _ _ _ _ _ Hx). cbn [fst snd app].
  by rewrite IH.
Qed.

(** The names that a run of [createLabels] asked to create. *)
Lemma createLabels_requested (owner repo : string) (labels : gmap string Label)
  (h : list Event) (existingLabels : list GhLabel) :
  Issues_ListLabels h owner repo = Ok existingLabels →
  keyedByName labels →
  gl_GetName <$> (labelCalls (createLabels owner repo labels h).2).*1
  = (filter (labelMissing existingLabels) (rangeOrder labels)).*1.
Proof.
  intros Hfetch Hkeys. rewrite (createLabels_fetched _ _ _ _ _ Hfetch). cbn [snd].
  change (labelCalls (?e :: ?t)) with (labelCalls t).
  destruct (labelsLoop_spec owner repo existingLabels (rangeOrder labels)
              (h ++ [CallListLabels owner repo (Ok existingLabels)])) as [-> _].
  rewrite <- list_fmap_compose. apply Forall_fmap_ext_1, Forall_forall.
  intros [name l] [_ Hin]%list_elem_of_filter.
  apply rangeOrder_elem in Hin. by apply Hkeys in Hin as <-.
Qed.

(** X7. When the labels of the target can be listed, [createLabels]
    asks once for every collected label that the target lacks and for no
    other: no name is requested twice and none that the list call
    returned. When the target has them all, the list call is all the run
    does, so a second run against the same target creates nothing. *)
Theorem createLabels_requests_each_missing_label_once (owner repo : string)
  (labels : gmap string Label) (h : list Event) (existingLabels : list GhLabel) :
  Issues_ListLabels h owner repo = Ok existingLabels →
  keyedByName labels →
  let run := createLabels owner repo labels h in
  let requested := gl_GetName <$> (labelCalls run.2).*1 in
  NoDup requested ∧
  (∀ name, name ∈ requested
           ↔ is_Some (labels !! name) ∧ name ∉ gl_GetName <$> existingLabels) ∧
  ((∀ name, is_Some (labels !! name) → name ∈ gl_GetName <$> existingLabels) →
   run = (None, [CallListLabels owner repo (Ok existingLabels)])).
Proof.
  intros Hfetch Hkeys. cbv zeta.
  rewrite (createLabels_requested _ _ _ _ _ Hfetch Hkeys).
  split_and!.
  - eapply sublist_NoDup; [apply (rangeOrder_NoDup labels)|].
    apply fmap_sublist, sublist_filter; apply _.
  - intros name. rewrite list_elem_of_fmap. split.
    + intros ([n l] & -> & [Hmiss Hin]%list_elem_of_filter).
      apply labelMissing_spec in Hmiss. apply rangeOrder_elem in Hin.
      by split; [exists l|].
    + intros [[l Hl] Hmiss]. exists (name, l). split; [done|].
      apply list_elem_of_filter. split; [by apply labelMissing_spec|].
      by apply rangeOrder_elem.
  - intros Hall. rewrite (createLabels_fetched _ _ _ _ _ Hfetch).
    rewrite labelsLoop_nothing; [done|].
    apply Forall_forall. intros [name l] Hin. apply existingNames_lookup.
    apply Hall. exists l. by apply rangeOrder_elem.
Qed.

Lemma milestoneRequest_shape (title : string) (milestone : Milestone) :
  (milestoneRequest title milestone).2
  = {| gm_Title := Some (Milestone_Title milestone);
       gm_Description := Some (Milestone_Description milestone);
       gm_DueOn := parsedDueOn milestone; gm_Number := None |}.
Proof.
  unfold milestoneRequest, parsedDueOn.
  destruct (Milestone_DueOn milestone) as [d|]; [|done].
  by destruct (time_Parse RFC3339 d).
Qed.

Lemma milestonesLoop_titles (owner repo : string) (order : list (string * Milestone))
  (mtn : gmap string Z) (h : list Event) :
  Forall (λ entry, Milestone_Title entry.2 = entry.1) order →
  gm_GetTitle <$> (milestoneCalls (forEach (createMilestone1 owner repo) mtn order h).2).*1
  `sublist_of` order.*1.
Proof.
  intros Hkeys. revert mtn h.
  induction Hkeys as [|[k ms] order Hk _ IH]; intros mtn h; [done|].
  rewrite forEach_cons. destruct (mtn !! k) as [n|] eqn:Hlook.
  - rewrite (createMilestone1_skip _ _ _ _ _ _ _ Hlook). cbn [fst snd app].
    apply sublist_cons, IH.
  - rewrite (createMilestone1_create _ _ _ _ _ _ Hlook). cbv zeta. cbn [fst snd].
    rewrite milestoneCalls_app, milestoneCalls_create. cbn [app fmap list_fmap fst snd].
    rewrite milestoneRequest_shape. cbn in Hk |- *. rewrite Hk.
    apply sublist_skip, IH.
Qed.

Lemma milestonesLoop_nothing (owner repo : string) (order : list (string * Milestone))
  (mtn : gmap string Z) (h : list Event) :
  Forall (λ entry, is_Some (mtn !! entry.1)) order →
  forEach (createMilestone1 owner repo) mtn order h = (mtn, []).
Proof.
  intros Hall. revert h.
  induction Hall as [|[title ms] order [n Hn] _ IH]; intros h; [done|].
  rewrite forEach_cons, (createMilestone1_skip _ _ _ _ _ _ _ Hn). cbn [fst snd app].
  by rewrite IH.
Qed.

Lemma createMilestones_NoDup (owner repo : string) (milestones : gmap string Milestone)
  (h : list Event) :
  keyedByTitle milestones →
  NoDup (gm_GetTitle <$> (milestoneCalls (createMilestones owner repo milestones h).2).*1).
Proof.
  intros Hkeys.
  destruct (Issues_ListMilestones h owner repo {| mlo_State := "all" |})
    as [existing|e] eqn:Hfetch.
  - rewrite (createMilestones_fetched _ _ _ _ _ Hfetch). cbv zeta. cbn [snd].
    change (milestoneCalls (?e :: ?t)) with (milestoneCalls t).
    eapply sublist_NoDup; [apply (rangeOrder_NoDup milestones)|].
    by apply milestonesLoop_titles, rangeOrder_keyed.
  - rewrite (createMilestones_failed _ _ _ _ _ Hfetch). cbn. apply NoDup_nil_2.
Qed.

Lemma createLabels_NoDup (owner repo : string) (labels : gmap string Label)
  (h : list Event) :
  keyedByName labels →
  NoDup (gl_GetName <$> (labelCalls (createLabels owner repo labels h).2).*1).
Proof.
  intros Hkeys.
  destruct (Issues_ListLabels h owner repo) as [existing|e] eqn:Hfetch.
  - rewrite (createLabels_requested _ _ _ _ _ Hfetch Hkeys).
    eapply sublist_NoDup; [apply (rangeOrder_NoDup labels)|].
    apply fmap_sublist, sublist_filter; apply _.
  - rewrite (createLabels_failed _ _ _ _ _ Hfetch). cbn. apply NoDup_nil_2.
Qed.

(** X8. When the milestones of the target can be listed,
    [createMilestones] asks at most once for a title; each request is
    for a collected milestone, with its title and description, no number,
    and the due date exactly when one is given and parses. When the
    target has a milestone for every collected title, the list call is
    all the run does and the map holds the listed milestones only. *)
Theorem createMilestones_requests_each_title_once (owner repo : string)
  (milestones : gmap string Milestone) (h : list Event)
  (existingMilestones : list GhMilestone) :
  Issues_ListMilestones h owner repo {| mlo_State := "all" |} = Ok existingMilestones →
  keyedByTitle milestones →
  let run := createMilestones owner repo milestones h in
  NoDup (gm_GetTitle <$> (milestoneCalls run.2).*1) ∧
  (∀ req res, (req, res) ∈ milestoneCalls run.2 →
     ∃ milestone,
       milestones !! gm_GetTitle req = Some milestone ∧
       req = {| gm_Title := Some (Milestone_Title milestone);
                gm_Description := Some (Milestone_Description milestone);
                gm_DueOn := parsedDueOn milestone; gm_Number := None |}) ∧
  ((∀ title, is_Some (milestones !! title)
             → title ∈ gm_GetTitle <$> existingMilestones) →
   run = (Ok (seedMilestones existingMilestones),
          [CallListMilestones owner repo {| mlo_State := "all" |}
             (Ok existingMilestones)])).
Proof.
  intros Hfetch Hkeys. cbv zeta. split_and!.
  - by apply createMilestones_NoDup.
  - rewrite (createMilestones_fetched _ _ _ _ _ Hfetch). cbv zeta. cbn [snd].
    change (milestoneCalls (?e :: ?t)) with (milestoneCalls t).
    intros req res Hin.
    apply milestonesLoop_calls in Hin as (title & ms & Hin & -> & _).
    apply rangeOrder_elem in Hin. exists ms.
    rewrite milestoneRequest_shape. split; [|done].
    cbn. by rewrite (Hkeys _ _ Hin).
  - intros Hall. rewrite (createMilestones_fetched _ _ _ _ _ Hfetch). cbv zeta.
    rewrite milestonesLoop_nothing; [done|].
    apply Forall_forall. intros [title ms] Hin. apply rangeOrder_elem in Hin.
    cbn [fst]. apply not_eq_None_Some. rewrite seedMilestones_None.
    intros Hn. apply Hn, Hall. by exists ms.
Qed.

End Provisioning.

Section WholeRun.
Context `{Platform} `{!Client}.

Ltac member := repeat first [apply list_elem_of_here | apply list_elem_of_further].
Ltac absent := let Hin := fresh in intros Hin; repeat (apply elem_of_cons in Hin as [Hin|Hin]; [discriminate Hin|]); by apply elem_of_nil in Hin.
Ltac gone lem Hx :=
  match type of Hx with only ?ks ?t => rewrite (lem ks t ltac:(absent) Hx) end.

(** The trace of [main] around its two provisioning calls. *)
Lemma main_provisioning (owner repo : string) (sourceIssues : list Issue)
  (h : list Event) :
  let found := foldl collectIssue (∅, ∅) sourceIssues in
  let pre := mainPreamble sourceIssues in
  let labelsRun := createLabels owner repo found.1 (h ++ pre) in
  let milestonesRun := createMilestones owner repo found.2 (h ++ pre ++ labelsRun.2) in
  ∃ t2 rest,
    (main owner repo sourceIssues h).2 = pre ++ labelsRun.2 ++ t2 ++ rest ∧
    (t2 = [] ∨ t2 = milestonesRun.2) ∧
    only [KLog; KCreate; KCreateComment; KEdit] rest.
Proof.
  cbv zeta. rewrite main_phases. cbv zeta.
  set (pre := mainPreamble sourceIssues).
  set (found := foldl collectIssue (∅, ∅) sourceIssues).
  destruct (createLabels owner repo found.1 (h ++ pre)) as [[e|] t1]; cbn [fst snd].
  { exists [], [Log ("failed to create labels: " +:+ e)].
    split_and!; [done|by left|].
    apply Forall_cons_2; [cbn; member|apply Forall_nil_2]. }
  destruct (createMilestones owner repo found.2 (h ++ pre ++ t1)) as [[mtn|e] t2];
    cbn [fst snd].
  2:{ exists t2, [Log ("failed to create milestones: " +:+ e)].
      split_and!; [done|by right|].
      apply Forall_cons_2; [cbn; member|apply Forall_nil_2]. }
  set (h3 := h ++ _).
  pose proof (createIssueAndComment_only owner repo sourceIssues mtn h3) as H3.
  set (issuesRun := createIssueAndComment owner repo sourceIssues mtn h3) in *.
  set (h4 := h3 ++ _).
  pose proof (updateIssueLinks_only owner repo sourceIssues issuesRun.1 h4) as H4.
  set (t4 := (updateIssueLinks owner repo sourceIssues issuesRun.1 h4).2) in *.
  eexists t2, _. split_and!; [reflexivity|by right|].
  apply Forall_cons_2; [cbn; member|]. apply only_app. split.
  { eapply only_mono; [|exact H3]. intros k Hk.
    repeat (apply elem_of_cons in Hk as [->|Hk]; [member|]). by apply elem_of_nil in Hk. }
  apply Forall_cons_2; [cbn; member|]. apply only_app. split.
  { eapply only_mono; [|exact H4]. intros k Hk.
    repeat (apply elem_of_cons in Hk as [->|Hk]; [member|]). by apply elem_of_nil in Hk. }
  apply Forall_cons_2; [cbn; member|apply Forall_nil_2].
Qed.

(** X9. Whatever the snapshot and the target, a run of [main] asks at
    most once for a label of a given name and at most once for a
    milestone of a given title. *)
Theorem main_requests_no_name_twice (owner repo : string) (sourceIssues : list Issue)
  (h : list Event) :
  let run := main owner repo sourceIssues h in
  NoDup (gl_GetName <$> (labelCalls run.2).*1) ∧
  NoDup (gm_GetTitle <$> (milestoneCalls run.2).*1).
Proof.
  cbv zeta. pose proof (mainPreamble_only sourceIssues) as Hpre.
  destruct (main_provisioning owner repo sourceIssues h) as (t2 & rest & -> & Ht2 & Hrest).
  set (found := foldl collectIssue (∅, ∅) sourceIssues) in *.
  set (pre := mainPreamble sourceIssues) in *.
  pose proof (createLabels_only owner repo found.1 (h ++ pre)) as H1.
  set (labelsRun := createLabels owner repo found.1 (h ++ pre)) in *.
  assert (H2 : only [KLog; KListMilestones; KCreateMilestone] t2).
  { destruct Ht2 as [->| ->]; [apply Forall_nil_2|apply createMilestones_only]. }
  split.
  - rewrite !labelCalls_app. gone labelCalls_only Hpre. gone labelCalls_only H2.
    gone labelCalls_only Hrest. cbn [app]. rewrite List.app_nil_r.
    apply createLabels_NoDup, collected_keyedByName.
  - rewrite !milestoneCalls_app. gone milestoneCalls_only Hpre.
    gone milestoneCalls_only H1. gone milestoneCalls_only Hrest.
    cbn [app]. rewrite List.app_nil_r.
    destruct Ht2 as [->| ->]; [apply NoDup_nil_2|].
    apply createMilestones_NoDup, collected_keyed.
Qed.

End WholeRun.

Section Replication.
Context `{Platform} `{!Client}.

Lemma foldl_recordCreated_lookup (attempts : list (Issue * Result GhIssue))
  (oldToNew : gmap Z Z) (N : Z) :
  foldl (λ m ir, recordCreated m ir.1 ir.2) oldToNew attempts !! N
  = match last_with (createdAs N) attempts with
    | Some attempt => answeredNumber attempt.2
    | None => oldToNew !! N
    end.
Proof.
  unfold last_with. revert oldToNew.
  induction attempts as [|[issue r] attempts IH]; intros oldToNew; [done|].
  cbn [foldl]. rewrite IH, filter_cons. cbn [fst snd].
  destruct (decide (createdAs N (issue, r))) as [[Hn Hok]|Hno]; cbn [fst snd] in *.
  - rewrite last_cons. destruct (last (filter _ attempts)); [done|].
    destruct r as [created|e]; [|done]. cbn. by rewrite Hn, lookup_insert_eq.
  - destruct (last (filter _ attempts)); [done|].
    destruct r as [created|e]; [|done]. cbn.
    apply lookup_insert_ne. intros Hn. apply Hno. by split.
Qed.

Lemma last_with_unique {A : Type} (f : A → Z) (P : A → Prop) `{∀ x, Decision (P x)}
  (l : list A) (x : A) :
  NoDup (f <$> l) → x ∈ l → P x → (∀ y, P y → f y = f x) → last_with P l = Some x.
Proof.
  intros Hnd Hin Hx Hsame. unfold last_with.
  induction l as [|y l IH]; [by apply elem_of_nil in Hin|].
  cbn [fmap list_fmap] in Hnd. apply NoDup_cons in Hnd as [Hy Hnd].
  apply elem_of_cons in Hin as [->|Hin].
  - rewrite filter_cons_True by done.
    destruct (filter P l) as [|z l'] eqn:Hf; [done|].
    assert (Hz : z ∈ filter P l) by (rewrite Hf; left).
    apply list_elem_of_filter in Hz as [Hpz Hz].
    destruct Hy. rewrite <- (Hsame z Hpz). by apply list_elem_of_fmap_2.
  - specialize (IH Hnd Hin). rewrite filter_cons.
    destruct (decide (P y)); [|done]. rewrite last_cons. by rewrite IH.
Qed.

(** X10. The mapping that phase 3 returns sends a source number to the
    number answered by the last successful creation for an issue of that
    number, and has no entry for a number without one; it depends on the
    outcomes of the creation requests only, not on those of the
    comments. When the numbers of the snapshot are distinct, every issue
    that was created is mapped to its own new number. *)
Theorem createIssueAndComment_maps_last_creation (owner repo : string)
  (issues : list Issue) (milestoneTitleToNum : gmap string Z) (h : list Event) :
  let run := createIssueAndComment owner repo issues milestoneTitleToNum h in
  let attempts := zip issues (createOutcomes run.2) in
  (∀ N, run.1 !! N
        = last_with (createdAs N) attempts ≫= λ attempt, answeredNumber attempt.2) ∧
  (NoDup (Issue_Number <$> issues) →
   ∀ issue created, (issue, Ok created) ∈ attempts →
     run.1 !! Issue_Number issue = Some (gi_GetNumber created)).
Proof.
  cbv zeta.
  destruct (createIssueAndComment_gen owner repo milestoneTitleToNum issues ∅ h)
    as (Hreq & Hmap & _).
  fold (createIssueAndComment owner repo issues milestoneTitleToNum) in Hreq, Hmap.
  set (run := createIssueAndComment owner repo issues milestoneTitleToNum h) in *.
  assert (Hlook : ∀ N, run.1 !! N
            = last_with (createdAs N) (zip issues (createOutcomes run.2))
              ≫= λ attempt, answeredNumber attempt.2).
  { intros N. rewrite Hmap, foldl_recordCreated_lookup, lookup_empty.
    by destruct (last_with _ _). }
  split; [exact Hlook|].
  intros Hnd issue created Hin. rewrite Hlook.
  assert (Hlen : length issues = length (createOutcomes run.2)).
  { unfold createOutcomes. rewrite length_fmap.
    rewrite <- (length_fmap fst (createCalls run.2)), Hreq. by rewrite length_fmap. }
  rewrite (last_with_unique (λ a, Issue_Number a.1) _ _ (issue, Ok created)); [done|..].
  - rewrite <- (fst_zip issues (createOutcomes run.2)) in Hnd by lia.
    by rewrite <- list_fmap_compose in Hnd.
  - done.
  - by split.
  - by intros y [Hy _].
Qed.

End Replication.

Section Links.
Context `{Platform} `{!Client}.

Lemma newLink_empty (number : Z) (ds : string) : newLink ∅ number ds = link ds.
Proof. unfold newLink. by rewrite lookup_empty. Qed.

Lemma updatedBodyOf_empty (body : string) : updatedBodyOf ∅ body = body.
Proof.
  destruct (decomposition_exists body) as (lead & refs & -> & Hlead & Hrefs).
  rewrite (updatedBodyOf_assemble _ _ _ Hlead Hrefs).
  apply (f_equal (String.append lead)).
  apply assemble_ext, Forall_forall. intros r _. apply newLink_empty.
Qed.

(** X11. The rewritten body depends on the mapping only through the
    numbers that the references of the body denote: two mappings that
    agree on them give the same text. *)
Theorem updateIssueLinks_rewrite_reads_referenced_numbers (oldToNew oldToNew' : gmap Z Z)
  (lead : string) (refs : list (string * string)) :
  no_link lead → Forall wf_ref refs →
  Forall (λ r, oldToNew !! (Atoi r.1).1 = oldToNew' !! (Atoi r.1).1) refs →
  updatedBodyOf oldToNew (lead +:+ assemble link refs)
  = updatedBodyOf oldToNew' (lead +:+ assemble link refs).
Proof.
  intros Hlead Hrefs Hagree.
  rewrite !(updatedBodyOf_assemble _ _ _ Hlead Hrefs).
  apply (f_equal (String.append lead)).
  apply assemble_ext. eapply Forall_impl; [exact Hagree|].
  intros r Hr. unfold newLink. by rewrite Hr.
Qed.

(** X12. Phase 4 leaves alone what was not created: for source issues
    without an entry in the mapping it logs one line each and calls
    nothing; and with the empty mapping every body is rewritten to
    itself. *)
Theorem updateIssueLinks_skips_issues_not_created (owner repo : string)
  (issues : list Issue) (oldToNew : gmap Z Z) (h : list Event) :
  Forall (λ issue, oldToNew !! Issue_Number issue = None) issues →
  updateIssueLinks owner repo issues oldToNew h
  = (tt, (λ issue, Log ("Skipping body update for old issue #"
                        +:+ fmt_d (Issue_Number issue) +:+ " as it was not created."))
         <$> issues)
  ∧ ∀ body, updatedBodyOf ∅ body = body.
Proof.
  intros Hnone. split; [|apply updatedBodyOf_empty].
  unfold updateIssueLinks. revert h.
  induction Hnone as [|issue issues Hn _ IH]; intros h; [done|].
  rewrite forEach_cons.
  assert (Hskip : ∀ h', updateIssue1 owner repo oldToNew tt issue h'
            = (tt, [Log ("Skipping body update for old issue #"
                         +:+ fmt_d (Issue_Number issue) +:+ " as it was not created.")])).
  { intros h'. unfold updateIssue1. by rewrite Hn. }
  rewrite !Hskip. cbn [fst snd app fmap list_fmap]. by rewrite IH.
Qed.

End Links.

Section LinksAgain.
Context `{Platform} `{!Client}.

(** X13. The reference that the rewriter writes for a new number
    between 0 and the largest [int] matches the pattern again, and
    parsing it the way the rewriter does gives the new number back
    without an error. *)
Theorem updateIssueLinks_written_reference_parses_back (newNum : Z) :
  0 ≤ newNum ≤ maxInt →
  is_link ("#" +:+ fmt_d newNum) ∧
  Atoi (TrimPrefix ("#" +:+ fmt_d newNum) "#") = (newNum, None) ∧
  ∀ oldToNew,
    replaceLink oldToNew ("#" +:+ fmt_d newNum)
    = match oldToNew !! newNum with
      | Some newer => "#" +:+ fmt_d newer
      | None => "#" +:+ fmt_d newNum
      end.
Proof.
  intros [Hlo Hhi]. destruct (fmt_d_digits newNum Hlo) as (Hne & Hds & Hval).
  assert (Hparse : Atoi (fmt_d newNum) = (newNum, None)).
  { rewrite (Atoi_digits _ Hne Hds), Hval. by rewrite (proj2 (Z.leb_le _ _) Hhi). }
  split_and!.
  - by exists (fmt_d newNum).
  - change ("#" +:+ fmt_d newNum) with (link (fmt_d newNum)).
    by rewrite TrimPrefix_link.
  - intros oldToNew. change ("#" +:+ fmt_d newNum) with (link (fmt_d newNum)).
    rewrite replaceLink_link, Hparse. done.
Qed.

(** X14. A reference whose digits denote a number above the largest
    [int] is looked up under the largest [int]: [strconv.Atoi] reports
    the range error with that value, and the rewriter drops the error. *)
Theorem updateIssueLinks_reference_out_of_range (oldToNew : gmap Z Z) (ds : string) :
  ds ≠ EmptyString → all_digits ds = true → maxInt < digitsValue ds →
  Atoi (TrimPrefix ("#" +:+ ds) "#") = (maxInt, Some ErrRange) ∧
  replaceLink oldToNew ("#" +:+ ds)
  = match oldToNew !! maxInt with
    | Some newNum => "#" +:+ fmt_d newNum
    | None => "#" +:+ ds
    end.
Proof.
  intros Hne Hds Hbig.
  assert (Hparse : Atoi ds = (maxInt, Some ErrRange)).
  { rewrite (Atoi_digits _ Hne Hds). by rewrite (proj2 (Z.leb_gt _ _) Hbig). }
  change ("#" +:+ ds) with (link ds). rewrite TrimPrefix_link, replaceLink_link, Hparse.
  done.
Qed.

(** X15. Rewriting keeps the shape of a body: when the new numbers of
    the references are not negative, the rewritten body has the same
    leading text and the same texts after the references, and each
    reference is again a whole run of digits after a hash sign, the
    digits of the new number where the mapping has one. *)
Theorem updateIssueLinks_rewrite_keeps_shape (oldToNew : gmap Z Z) (lead : string)
  (refs : list (string * string)) :
  no_link lead → Forall wf_ref refs →
  Forall (λ r, ∀ newNum, oldToNew !! (Atoi r.1).1 = Some newNum → 0 ≤ newNum) refs →
  let refs' := (λ r, (match oldToNew !! (Atoi r.1).1 with
                      | Some newNum => fmt_d newNum
                      | None => r.1
                      end, r.2)) <$> refs in
  updatedBodyOf oldToNew (lead +:+ assemble link refs) = lead +:+ assemble link refs'
  ∧ Forall wf_ref refs'.
Proof.
  intros Hlead Hrefs Hpos refs'. subst refs'.
  rewrite (updatedBodyOf_assemble _ _ _ Hlead Hrefs). split.
  - apply (f_equal (String.append lead)). clear Hrefs Hpos.
    induction refs as [|[ds text] refs IH]; [done|].
    cbn [fmap list_fmap assemble fst snd]. rewrite IH. unfold newLink, link.
    by destruct (oldToNew !! (Atoi ds).1).
  - apply Forall_fmap.
    eapply Forall_impl; [exact (proj2 (Forall_and _ refs) (conj Hrefs Hpos))|].
    intros [ds text] [(Hne & Hds & Hstart & Htext) Hn]. cbn [fst snd] in *.
    unfold wf_ref, compose. cbn [fst snd].
    destruct (oldToNew !! (Atoi ds).1) as [newNum|]; [|done].
    destruct (fmt_d_digits newNum (Hn _ eq_refl)) as (Hne' & Hds' & _).
    by split_and!.
Qed.

Lemma Atoi_digits_range (ds : string) :
  ds ≠ EmptyString → all_digits ds = true →
  0 ≤ (Atoi ds).1 ≤ maxInt ∧ (Atoi ds).2 ≠ Some ErrSyntax.
Proof.
  intros Hne Hds. rewrite (Atoi_digits _ Hne Hds).
  pose proof (decimal_ge ds 0 Hds ltac:(lia)) as Hge. fold (digitsValue ds) in Hge.
  destruct (digitsValue ds <=? maxInt) eqn:Hfit; cbn [fst snd].
  - apply Z.leb_le in Hfit. split; [lia|done].
  - split; [rewrite maxInt_eq; lia|done].
Qed.

(** X18. References to numbers that the mapping does not hold stay as
    they are: such a body is rewritten to itself, and phase 4 submits no
    edit for an issue with this body, created or not. *)
Theorem updateIssueLinks_unmapped_references_stay (oldToNew : gmap Z Z)
  (lead : string) (refs : list (string * string)) :
  no_link lead → Forall wf_ref refs →
  Forall (λ r, oldToNew !! (Atoi r.1).1 = None) refs →
  updatedBodyOf oldToNew (lead +:+ assemble link refs) = lead +:+ assemble link refs ∧
  ∀ owner repo issue h,
    Issue_Body issue = lead +:+ assemble link refs →
    editCalls (updateIssue1 owner repo oldToNew tt issue h).2 = [].
Proof.
  intros Hlead Hrefs Hnone.
  assert (Hsame : updatedBodyOf oldToNew (lead +:+ assemble link refs)
                  = lead +:+ assemble link refs).
  { rewrite (updatedBodyOf_assemble _ _ _ Hlead Hrefs).
    apply (f_equal (String.append lead)), assemble_ext.
    eapply Forall_impl; [exact Hnone|]. intros r Hr. unfold newLink. by rewrite Hr. }
  split; [exact Hsame|].
  intros owner repo issue h Hbody. rewrite updateIssue1_edits. unfold expectedEdit.
  destruct (oldToNew !! Issue_Number issue); [|done].
  rewrite Hbody, Hsame. by rewrite decide_True.
Qed.

(** X19. The number that the rewriter looks up for a reference lies
    between 0 and the largest [int], and the dropped error is never a
    syntax error; so entries of the mapping under other keys, such as a
    negative source number, take no effect on any body. *)
Theorem updateIssueLinks_looks_up_numbers_in_range (oldToNew : gmap Z Z) :
  (∀ ds, ds ≠ EmptyString → all_digits ds = true →
         0 ≤ (Atoi (TrimPrefix ("#" +:+ ds) "#")).1 ≤ maxInt
         ∧ (Atoi (TrimPrefix ("#" +:+ ds) "#")).2 ≠ Some ErrSyntax) ∧
  ((∀ number, is_Some (oldToNew !! number) → number < 0 ∨ maxInt < number) →
   ∀ body, updatedBodyOf oldToNew body = body).
Proof.
  split.
  - intros ds Hne Hds. change ("#" +:+ ds) with (link ds). rewrite TrimPrefix_link.
    by apply Atoi_digits_range.
  - intros Hkeys body.
    destruct (decomposition_exists body) as (lead & refs & -> & Hlead & Hrefs).
    rewrite (updatedBodyOf_assemble _ _ _ Hlead Hrefs).
    apply (f_equal (String.append lead)), assemble_ext.
    eapply Forall_impl; [exact Hrefs|].
    intros [ds text] (Hne & Hds & _). cbn [fst] in *. unfold newLink.
    destruct (Atoi_digits_range ds Hne Hds) as [Hrange _].
    destruct (oldToNew !! (Atoi ds).1) eqn:Hlook; [|done].
    destruct (Hkeys (Atoi ds).1) as [?|?]; [by rewrite Hlook|lia..].
Qed.

End LinksAgain.

Section EntryFacts.
Context `{Platform} `{!Client} `{!Host}.

Lemma main_exit_status (owner repo : string) (sourceIssues : list Issue)
  (h : list Event) :
  (main owner repo sourceIssues h).1 = Returned
  ∨ (main owner repo sourceIssues h).1 = Exited 1.
Proof.
  destruct (main_cases owner repo sourceIssues h)
    as [(e & ->)|[(ex & t1 & e & _ & ->)
                 |(ex & t1 & exm & t2 & t3 & t4 & hm & h3 & h4 & _ & _ & _ & ->)]];
    cbn [fst]; auto.
Qed.

Lemma eqb_empty (s : string) : String.eqb s EmptyString = false ↔ s ≠ EmptyString.
Proof. apply String.eqb_neq. Qed.

(** X16. Nothing is sent to GitHub before the invocation is checked:
    when the output holds a call of the client, the three flags and the
    token are not empty, the file was read and decoded, and the run is
    that of [main] on the decoded snapshot. *)
Theorem main_calls_the_client_only_when_valid (inv : Invocation) :
  let run := main_from_flags inv in
  clientCalls run.2 ≠ [] →
  flag_file inv ≠ EmptyString ∧ flag_owner inv ≠ EmptyString ∧
  flag_repo inv ≠ EmptyString ∧ env_GITHUB_TOKEN inv ≠ EmptyString ∧
  ∃ data sourceIssues,
    os_ReadFile (flag_file inv) = Ok data ∧ json_Unmarshal data = Ok sourceIssues ∧
    run.1 = (main (flag_owner inv) (flag_repo inv) sourceIssues []).1 ∧
    run.2 = Emitted <$> (main (flag_owner inv) (flag_repo inv) sourceIssues []).2.
Proof.
  cbv zeta. unfold main_from_flags.
  destruct (String.eqb (flag_file inv) EmptyString) eqn:Hf; [done|].
  destruct (String.eqb (flag_owner inv) EmptyString) eqn:Ho; [done|].
  destruct (String.eqb (flag_repo inv) EmptyString) eqn:Hr; [done|].
  destruct (String.eqb (env_GITHUB_TOKEN inv) EmptyString) eqn:Ht; [done|].
  cbn [orb]. apply eqb_empty in Hf, Ho, Hr, Ht.
  destruct (os_ReadFile (flag_file inv)) as [data|e]; [|done].
  destruct (json_Unmarshal data) as [sourceIssues|e] eqn:Hd; [|done].
  intros _. split_and!; [done..|]. by exists data, sourceIssues.
Qed.

(** Once the flags are parsed: the checks of the flags and of the token. *)
Lemma main_from_flags_checks (inv : Invocation) :
  let run := main_from_flags inv in
  (run.1 = Returned ∨ run.1 = Exited 1) ∧
  (PrintedUsage ∈ run.2
   ↔ flag_file inv = EmptyString ∨ flag_owner inv = EmptyString
     ∨ flag_repo inv = EmptyString) ∧
  (flag_file inv ≠ EmptyString ∧ flag_owner inv ≠ EmptyString
   ∧ flag_repo inv ≠ EmptyString ∧ env_GITHUB_TOKEN inv = EmptyString →
   run = (Exited 1, [Emitted (Log "GITHUB_TOKEN environment variable not set.")])).
Proof.
  cbv zeta. unfold main_from_flags.
  destruct (String.eqb (flag_file inv) EmptyString) eqn:Hf;
    [apply String.eqb_eq in Hf|apply eqb_empty in Hf]; cbn [orb].
  { split_and!; [by right| |by intros [? _]].
    split; [by left|]. intros _. apply elem_of_cons. right. by left. }
  destruct (String.eqb (flag_owner inv) EmptyString) eqn:Ho;
    [apply String.eqb_eq in Ho|apply eqb_empty in Ho]; cbn [orb].
  { split_and!; [by right| |by intros (_ & ? & _)].
    split; [by right; left|]. intros _. apply elem_of_cons. right. by left. }
  destruct (String.eqb (flag_repo inv) EmptyString) eqn:Hr;
    [apply String.eqb_eq in Hr|apply eqb_empty in Hr]; cbn [orb].
  { split_and!; [by right| |by intros (_ & _ & ? & _)].
    split; [by right; right|]. intros _. apply elem_of_cons. right. by left. }
  assert (Hno : ∀ t : list Event, PrintedUsage ∉ Emitted <$> t).
  { intros t (e & He & _)%list_elem_of_fmap. discriminate He. }
  assert (Hflags : ¬ (flag_file inv = EmptyString ∨ flag_owner inv = EmptyString
                      ∨ flag_repo inv = EmptyString)) by (by intros [?|[?|?]]).
  destruct (String.eqb (env_GITHUB_TOKEN inv) EmptyString) eqn:Ht;
    [apply String.eqb_eq in Ht|apply eqb_empty in Ht].
  { split_and!; [by right| |done].
    split; [|done]. intros Hin. by destruct (Hno [Log _] Hin). }
  destruct (os_ReadFile (flag_file inv)) as [data|e].
  2:{ split_and!; [by right| |by intros (_ & _ & _ & ?)].
      split; [|done]. intros Hin. by destruct (Hno [Log _] Hin). }
  destruct (json_Unmarshal data) as [sourceIssues|e].
  2:{ split_and!; [by right| |by intros (_ & _ & _ & ?)].
      split; [|done]. intros Hin. by destruct (Hno [Log _] Hin). }
  cbn [fst snd]. split_and!; [apply main_exit_status| |by intros (_ & _ & _ & ?)].
  split; [|done]. intros Hin. by destruct (Hno _ Hin).
Qed.

(** X17. The process returns or ends with status 0, 1 or 2: with 2
    exactly when [flag.Parse] rejects the command line, with 0 exactly
    when help is asked for. The usage text is printed in these two cases
    and, the flags being parsed, exactly when one of the three is empty,
    whatever the token and the file are; and with the three flags given,
    an empty token ends the process with status 1 and one log line,
    before the file is read. *)
Theorem main_checks_flags_then_token (line : CommandLine) (githubToken : string) :
  let run := main_from_args line githubToken in
  (run.1 = Returned ∨ run.1 = Exited 0 ∨ run.1 = Exited 1 ∨ run.1 = Exited 2) ∧
  (run.1 = Exited 2 ↔ ∃ err, line = Malformed err) ∧
  (run.1 = Exited 0 ↔ line = Help) ∧
  (Out PrintedUsage ∈ run.2
   ↔ match line with
     | Flags file owner repo =>
         file = EmptyString ∨ owner = EmptyString ∨ repo = EmptyString
     | Help | Malformed _ => True
     end) ∧
  (∀ file owner repo,
     line = Flags file owner repo →
     file ≠ EmptyString ∧ owner ≠ EmptyString ∧ repo ≠ EmptyString
     ∧ githubToken = EmptyString →
     run = (Exited 1,
            [Out (Emitted (Log "GITHUB_TOKEN environment variable not set."))])).
Proof.
  cbv zeta. destruct line as [file owner repo| |err]; cbn [main_from_args fst snd].
  - destruct (main_from_flags_checks
                {| flag_file := file; flag_owner := owner; flag_repo := repo;
                   env_GITHUB_TOKEN := githubToken |}) as (Hexit & Husage & Htoken).
    cbn [flag_file flag_owner flag_repo env_GITHUB_TOKEN] in Husage, Htoken.
    split_and!.
    + destruct Hexit as [->| ->]; auto.
    + split; [|by intros [? ?]]. by destruct Hexit as [->| ->].
    + split; [|done]. by destruct Hexit as [->| ->].
    + rewrite <- Husage. split.
      * intros (o & [= <-] & Hin)%list_elem_of_fmap. exact Hin.
      * intros Hin. by apply (list_elem_of_fmap_2 Out).
    + intros f o r [= <- <- <-] Hall. by rewrite (Htoken Hall).
  - split_and!; [auto|split; [done|by intros [? ?]]|done| |done].
    split; [done|]. intros _. by left.
  - split_and!; [auto|split; [by eexists|done]|done| |done].
    split; [done|]. intros _. right. by left.
Qed.

End EntryFacts.

(** ** The properties on the example target *)

Module DemoRuns.
Import Demo.

(** The example of the specification: three comments by alice, bob and
    alice become one comment, framed once. *)
Example three_comments_one_call :
  commentCalls (replication [issueSameNumber]).2
  = [(10, {| ic_Body := Some (
      "### Comments from original issue:" +:+ nl +:+ nl +:+ "---" +:+ nl +:+ nl
      +:+ "**Comment from @alice:**" +:+ nl +:+ nl +:+ "one"
      +:+ nl +:+ nl +:+ "---" +:+ nl +:+ nl
      +:+ "**Comment from @bob:**" +:+ nl +:+ nl +:+ "two"
      +:+ nl +:+ nl +:+ "---" +:+ nl +:+ nl
      +:+ "**Comment from @alice:**" +:+ nl +:+ nl +:+ "three"
      +:+ nl +:+ nl +:+ "---" +:+ nl +:+ nl) |})].
Proof. reflexivity. Qed.

(** C2 as it is written does not hold when two source issues carry the
    same number: the creation of the first record numbered 1 fails,
    the second one is created as issue 10, so the mapping has an entry
    for 1 and phase 4 rewrites the reference [#1] of issue 2. *)
Lemma failed_creation_duplicate_number :
  Issue_Number <$> duplicatedIssues = [1; 1; 2] ∧
  createOutcomes (replication duplicatedIssues).2
  = [Err "500 Internal Server Error";
     Ok {| gi_Number := Some 10 |}; Ok {| gi_Number := Some 11 |}] ∧
  (replication duplicatedIssues).1 !! 1 = Some 10 ∧
  updatedBodyOf (replication duplicatedIssues).1 (Issue_Body issueReferring)
  = "see #10 and #11" ∧
  editCalls (@updateIssueLinks platform (client target) "octo" "repo"
               duplicatedIssues (replication duplicatedIssues).1 []).2
  = [(11, {| ir_Title := None; ir_Body := Some "see #10 and #11";
             ir_Labels := None; ir_Milestone := None |})].
Proof. split_and!; reflexivity. Qed.


(** C4 as it is written does not hold for a target that answers a
    creation with another title than the one asked for: the creation of
    [A] fails, that of [B] succeeds and comes back as [A] with number 5;
    the returned map has an entry for [A] and none for [B]. *)
Lemma createMilestones_retitled_creation :
  @Issues_ListMilestones platform Retitling.target [] "octo" "repo"
    {| mlo_State := "all" |} = Ok [] ∧
  keyedByTitle Retitling.milestones ∧
  milestoneCalls Retitling.provision.2
  = [({| gm_Title := Some "A"; gm_Description := Some "planned";
         gm_DueOn := None; gm_Number := None |}, Err "422 Validation Failed");
     ({| gm_Title := Some "B"; gm_Description := Some "planned";
         gm_DueOn := None; gm_Number := None |},
      Ok {| gm_Title := Some "A"; gm_Description := Some "planned";
            gm_DueOn := None; gm_Number := Some 5 |})] ∧
  Retitling.provision.1 = Ok (<["A" := 5]> ∅) ∧
  (<["A" := 5]> ∅ : gmap string Z) !! "B" = None.
Proof.
  split_and!; try reflexivity.
  unfold keyedByTitle, Retitling.milestones.
  apply map_Forall_insert_2; [done|]. apply map_Forall_insert_2; [done|].
  apply map_Forall_empty.
Qed.

(** With distinct numbers: issue 1 is refused, issue 2 refers to it. *)
Lemma failed_creation_keeps_references_witness :
  Forall (λ ir, Issue_Number ir.1 = 1 → is_ok ir.2 = false)
    (zip distinctIssues (createOutcomes (replication distinctIssues).2)) ∧
  (replication distinctIssues).1 !! 1 = None ∧
  updatedBodyOf (replication distinctIssues).1
    ("see " +:+ assemble link referencesTo1And2)
  = "see " +:+ assemble (λ ds, if decide ((Atoi ds).1 = 1) then "#" +:+ ds
                               else newLink (replication distinctIssues).1 (Atoi ds).1 ds)
                 referencesTo1And2.
Proof.
  assert (Hfailed : Forall (λ ir, Issue_Number ir.1 = 1 → is_ok ir.2 = false)
            (zip distinctIssues (createOutcomes (replication distinctIssues).2))).
  { vm_compute. repeat constructor. intros Heq. discriminate Heq. }
  split; [exact Hfailed|].
  destruct (@failed_creation_keeps_references platform (client target) "octo" "repo"
              distinctIssues (<["v1" := 1]> ∅) [] 1 Hfailed) as (_ & HN & _ & Hrw).
  split; [exact HN|]. apply Hrw; [by apply no_link_of_has_link|].
  repeat (apply List.Forall_cons;
          [split_and!; [done|done|done|by apply no_link_of_has_link]|]).
  apply List.Forall_nil.
Defined.


Ltac solve_refs :=
  repeat (apply List.Forall_cons;
          [split_and!; [done|done|done|by apply no_link_of_has_link]|]);
  apply List.Forall_nil.

(** Milestone provisioning on the example target: [v1] is kept, [v2] is
    created as 100 without its due date, [bad] is refused and stays out
    of the map. *)
Example provision_result :
  provision.1 = Ok (<["v2" := 100]> (<["v1" := 1]> ∅)) ∧
  milestoneCalls provision.2
  = [(requestV2,
      Ok {| gm_Title := Some "v2"; gm_Description := Some "planned";
            gm_DueOn := None; gm_Number := Some 100 |});
     ({| gm_Title := Some "bad"; gm_Description := Some "planned";
         gm_DueOn := None; gm_Number := None |}, Err "422 Validation Failed")].
Proof. split; reflexivity. Qed.

Lemma provision_echoes : titlesEchoed (milestoneCalls provision.2).
Proof. vm_compute. repeat constructor. Qed.

(** The provisioning run of the example satisfies the premises of C4. *)
Lemma createMilestones_provisions_witness :
  @Issues_ListMilestones platform (client target) [] "octo" "repo"
    {| mlo_State := "all" |} = Ok existingV1 ∧
  keyedByTitle collectedMilestones ∧
  ∃ m, provision.1 = Ok m ∧
       (∀ req res, (req, res) ∈ milestoneCalls provision.2 →
                   gm_GetTitle req ∉ gm_GetTitle <$> existingV1) ∧
       m !! "v1" = Some 1.
Proof.
  split; [reflexivity|]. split; [apply collected_keyed|].
  destruct (@createMilestones_provisions platform (client target) "octo" "repo"
              collectedMilestones [] existingV1 eq_refl
              (collected_keyed duplicatedIssues))
    as (m & Hm & Hnew & _ & _ & Hecho).
  exists m. split_and!; [exact Hm|exact Hnew|].
  destruct (Hecho provision_echoes) as [Hkept _]. by apply Hkept.
Defined.

(** A body without a reference: no edit. *)
Lemma updateIssueLinks_edits_changed_bodies_witness :
  no_link (Issue_Body issueRefused) ∧
  updatedBodyOf {[ 1 := 10 ]} (Issue_Body issueRefused) = Issue_Body issueRefused ∧
  editCalls (@updateIssue1 platform (client target) "octo" "repo" {[ 1 := 10 ]} tt
               issueRefused []).2 = [].
Proof.
  assert (Hn : no_link (Issue_Body issueRefused)) by (by apply no_link_of_has_link).
  split; [exact Hn|].
  exact (proj2 (@updateIssueLinks_edits_changed_bodies platform (client target)
                  "octo" "repo" distinctIssues {[ 1 := 10 ]} [])
           issueRefused [] Hn).
Defined.

(** The milestone [v2] of the example has a due date that does not parse. *)
Lemma createMilestones_drops_unparsable_due_date_witness :
  collectedMilestones !! "v2" = Some (milestone "v2" (Some "next week")) ∧
  (∃ err, @time_Parse platform RFC3339 "next week" = Err err) ∧
  (∃ m, provision.1 = Ok m) ∧
  ∃ res, (requestV2, res) ∈ milestoneCalls provision.2.
Proof.
  split; [reflexivity|]. split; [by eexists|].
  destruct (@createMilestones_drops_unparsable_due_date platform (client target)
              "octo" "repo" collectedMilestones [] existingV1
              "v2" (milestone "v2" (Some "next week")) "next week" _
              eq_refl (collected_keyed duplicatedIssues) eq_refl eq_refl eq_refl)
    as (_ & Hok & Hrun).
  split; [exact Hok|].
  destruct (Hrun provision_echoes) as [Hcall _]; [|exact Hcall].
  intros Hin. apply list_elem_of_singleton in Hin. discriminate Hin.
Defined.

(** Listing the labels of the locked target fails: [main] exits. *)
Lemma createLabels_single_failures_are_not_fatal_witness :
  @Issues_ListLabels platform (client lockedTarget)
    ([] ++ mainPreamble distinctIssues) "octo" "repo" = Err "401 Bad credentials" ∧
  @main platform (client lockedTarget) "octo" "repo" distinctIssues []
  = (Exited 1,
     mainPreamble distinctIssues
     ++ [CallListLabels "octo" "repo" (Err "401 Bad credentials");
         Log ("failed to create labels: failed to fetch existing labels: "
              +:+ "401 Bad credentials")]).
Proof.
  split; [reflexivity|].
  exact (proj2 (@createLabels_single_failures_are_not_fatal platform
                  (client lockedTarget) "octo" "repo" ∅ [])
           distinctIssues "401 Bad credentials" eq_refl).
Defined.

(** Two references within the integer range, one with leading zeros. *)
Lemma updateIssueLinks_parse_succeeds_in_range_witness :
  no_link "see " ∧ Forall wf_ref references ∧
  Forall (λ r, digitsValue r.1 ≤ maxInt) references ∧
  updatedBodyOf {[ 12 := 40; 7 := 8 ]} "see #12 and #007" = "see #40 and #8".
Proof.
  assert (Hlead : no_link "see ") by (by apply no_link_of_has_link).
  assert (Hrefs : Forall wf_ref references) by solve_refs.
  assert (Hfit : Forall (λ r, digitsValue r.1 ≤ maxInt) references).
  { repeat (apply List.Forall_cons; [by vm_compute|]). apply List.Forall_nil. }
  split_and!; [exact Hlead|exact Hrefs|exact Hfit|].
  exact (proj2 (updateIssueLinks_parse_succeeds_in_range {[ 12 := 40; 7 := 8 ]}
                  "see " references Hlead Hrefs Hfit)).
Defined.

End DemoRuns.

(** ** Further properties on the example targets *)

Module MoreRuns.
Import Demo.

Ltac solve_refs :=
  repeat (apply List.Forall_cons;
          [split_and!; [done|done|done|by apply no_link_of_has_link]|]);
  apply List.Forall_nil.

(** The whole run on the example target returns. *)
Lemma main_connects_phases_witness :
  (@main platform (client target) "octo" "repo" duplicatedIssues []).1 = Returned ∧
  editCalls (@main platform (client target) "octo" "repo" duplicatedIssues []).2
  = [(11, {| ir_Title := None; ir_Body := Some "see #10 and #11";
             ir_Labels := None; ir_Milestone := None |})].
Proof.
  split; [reflexivity|].
  destruct (@main_connects_phases platform (client target) "octo" "repo"
              duplicatedIssues [] eq_refl) as (_ & _ & Hedits).
  rewrite Hedits. reflexivity.
Defined.

(** The labels are provisioned, then the list of milestones fails. *)
Lemma main_stops_when_milestones_cannot_be_listed_witness :
  (Outage.labelsRun).1 = None ∧
  @Issues_ListMilestones platform Outage.milestonesDown
    ([] ++ mainPreamble distinctIssues ++ (Outage.labelsRun).2) "octo" "repo"
    {| mlo_State := "all" |} = Err "503 Service Unavailable" ∧
  @main platform Outage.milestonesDown "octo" "repo" distinctIssues []
  = (Exited 1,
     mainPreamble distinctIssues ++ (Outage.labelsRun).2
     ++ [CallListMilestones "octo" "repo" {| mlo_State := "all" |}
           (Err "503 Service Unavailable");
         Log ("failed to create milestones: failed to fetch existing milestones: "
              +:+ "503 Service Unavailable")]).
Proof.
  split; [reflexivity|]. split; [reflexivity|].
  exact (@main_stops_when_milestones_cannot_be_listed platform Outage.milestonesDown
           "octo" "repo" distinctIssues [] "503 Service Unavailable" eq_refl eq_refl).
Defined.

(** The example target has the label [bug]; [bad] and [new] are asked for. *)
Lemma createLabels_requests_each_missing_label_once_witness :
  @Issues_ListLabels platform (client target) [] "octo" "repo" = Ok Outage.existingBug ∧
  keyedByName Outage.collectedLabels ∧
  NoDup (gl_GetName <$> (labelCalls (@createLabels platform (client target) "octo" "repo"
                                       Outage.collectedLabels []).2).*1).
Proof.
  split; [reflexivity|]. split; [apply collected_keyedByName|].
  exact (proj1 (@createLabels_requests_each_missing_label_once platform (client target)
                  "octo" "repo" Outage.collectedLabels [] Outage.existingBug eq_refl
                  (collected_keyedByName duplicatedIssues))).
Defined.

(** The example target has the milestone [v1]; [v2] and [bad] are asked
    for, once each. *)
Lemma createMilestones_requests_each_title_once_witness :
  @Issues_ListMilestones platform (client target) [] "octo" "repo"
    {| mlo_State := "all" |} = Ok existingV1 ∧
  keyedByTitle collectedMilestones ∧
  NoDup (gm_GetTitle <$> (milestoneCalls provision.2).*1).
Proof.
  split; [reflexivity|]. split; [apply collected_keyed|].
  exact (proj1 (@createMilestones_requests_each_title_once platform (client target)
                  "octo" "repo" collectedMilestones [] existingV1 eq_refl
                  (collected_keyed duplicatedIssues))).
Defined.

(** Two mappings that differ on a number the body does not mention. *)
Lemma updateIssueLinks_rewrite_reads_referenced_numbers_witness :
  no_link "see " ∧ Forall wf_ref references ∧
  updatedBodyOf {[ 12 := 40; 7 := 8 ]} ("see " +:+ assemble link references)
  = updatedBodyOf {[ 12 := 40; 7 := 8; 99 := 1 ]} ("see " +:+ assemble link references).
Proof.
  assert (Hlead : no_link "see ") by (by apply no_link_of_has_link).
  assert (Hrefs : Forall wf_ref references) by solve_refs.
  split_and!; [exact Hlead|exact Hrefs|].
  apply (updateIssueLinks_rewrite_reads_referenced_numbers
           {[ 12 := 40; 7 := 8 ]} {[ 12 := 40; 7 := 8; 99 := 1 ]}
           "see " references Hlead Hrefs).
  repeat (apply List.Forall_cons; [reflexivity|]). apply List.Forall_nil.
Defined.

(** Neither example issue is in a mapping that knows issue 5 only. *)
Lemma updateIssueLinks_skips_issues_not_created_witness :
  Forall (λ issue, ({[ 5 := 50 ]} : gmap Z Z) !! Issue_Number issue = None)
    distinctIssues ∧
  @updateIssueLinks platform (client target) "octo" "repo" distinctIssues
    {[ 5 := 50 ]} []
  = (tt, [Log "Skipping body update for old issue #1 as it was not created.";
          Log "Skipping body update for old issue #2 as it was not created."]).
Proof.
  assert (Hnone : Forall (λ issue, ({[ 5 := 50 ]} : gmap Z Z) !! Issue_Number issue
                                   = None) distinctIssues).
  { repeat (apply List.Forall_cons; [reflexivity|]). apply List.Forall_nil. }
  split; [exact Hnone|].
  exact (proj1 (@updateIssueLinks_skips_issues_not_created platform (client target)
                  "octo" "repo" distinctIssues {[ 5 := 50 ]} [] Hnone)).
Defined.

(** The reference written for the new number 42. *)
Lemma updateIssueLinks_written_reference_parses_back_witness :
  0 ≤ 42 ≤ maxInt ∧ Atoi (TrimPrefix ("#" +:+ fmt_d 42) "#") = (42, None).
Proof.
  assert (Hfit : 0 ≤ 42 ≤ maxInt) by (rewrite maxInt_eq; lia).
  split; [exact Hfit|].
  exact (proj1 (proj2 (updateIssueLinks_written_reference_parses_back 42 Hfit))).
Defined.

(** The first number above the largest [int]. *)
Lemma updateIssueLinks_reference_out_of_range_witness :
  maxInt < digitsValue "9223372036854775808" ∧
  replaceLink {[ maxInt := 7 ]} "#9223372036854775808" = "#7".
Proof.
  assert (Hbig : maxInt < digitsValue "9223372036854775808") by (by vm_compute).
  split; [exact Hbig|].
  exact (proj2 (updateIssueLinks_reference_out_of_range {[ maxInt := 7 ]}
                  "9223372036854775808" ltac:(done) eq_refl Hbig)).
Defined.

(** Both references of the example are given new numbers. *)
Lemma updateIssueLinks_rewrite_keeps_shape_witness :
  no_link "see " ∧ Forall wf_ref references ∧
  updatedBodyOf {[ 12 := 40; 7 := 8 ]} ("see " +:+ assemble link references)
  = "see " +:+ assemble link [("40", " and "); ("8", EmptyString)] ∧
  Forall wf_ref [("40", " and "); ("8", EmptyString)].
Proof.
  assert (Hlead : no_link "see ") by (by apply no_link_of_has_link).
  assert (Hrefs : Forall wf_ref references) by solve_refs.
  assert (Hpos : Forall (λ r, ∀ newNum,
                    ({[ 12 := 40; 7 := 8 ]} : gmap Z Z) !! (Atoi r.1).1 = Some newNum
                    → 0 ≤ newNum) references).
  { repeat (apply List.Forall_cons; [intros n [= <-]; by vm_compute|]).
    apply List.Forall_nil. }
  split; [exact Hlead|]. split; [exact Hrefs|].
  exact (updateIssueLinks_rewrite_keeps_shape {[ 12 := 40; 7 := 8 ]}
           "see " references Hlead Hrefs Hpos).
Defined.

(** A complete invocation on the example target and host. *)
Lemma main_calls_the_client_only_when_valid_witness :
  clientCalls (@main_from_flags platform (client target) Outage.host
                 Outage.invocation).2 ≠ [] ∧
  @os_ReadFile Outage.host "issues.json" = Ok "<the two example issues>" ∧
  (@main_from_flags platform (client target) Outage.host Outage.invocation).1
  = Returned.
Proof.
  assert (Hcalls : clientCalls (@main_from_flags platform (client target) Outage.host
                                  Outage.invocation).2 ≠ []) by (by vm_compute).
  split; [exact Hcalls|]. split; [reflexivity|].
  destruct (@main_calls_the_client_only_when_valid platform (client target)
              Outage.host Outage.invocation Hcalls)
    as (_ & _ & _ & _ & data & sourceIssues & _ & _ & _ & _).
  reflexivity.
Defined.

(** A body whose only reference is to an issue that is not mapped. *)
Lemma updateIssueLinks_unmapped_references_stay_witness :
  no_link "see " ∧ Forall wf_ref references ∧
  updatedBodyOf {[ 1 := 10 ]} ("see " +:+ assemble link references)
  = "see #12 and #007".
Proof.
  assert (Hlead : no_link "see ") by (by apply no_link_of_has_link).
  assert (Hrefs : Forall wf_ref references) by solve_refs.
  assert (Hnone : Forall (λ r, ({[ 1 := 10 ]} : gmap Z Z) !! (Atoi r.1).1 = None)
                    references).
  { repeat (apply List.Forall_cons; [reflexivity|]). apply List.Forall_nil. }
  split; [exact Hlead|]. split; [exact Hrefs|].
  exact (proj1 (@updateIssueLinks_unmapped_references_stay platform (client target)
                  {[ 1 := 10 ]} "see " references Hlead Hrefs Hnone)).
Defined.

End MoreRuns.
